(** * Stagehand node: a shallow embedding of [Stagehand.node.ts]

    The node drives one remote browser session per input item.  This file
    embeds the helpers [sanitizeMessages], [extractUsageFromMessages] and
    [fieldsToZodSchema] and the [execute] method, and states the properties
    of the node against them.

    Conventions.
    - JavaScript strings are Rocq strings: sequences of code units below
      256.  Numbers are the integer-valued doubles (token counts, log
      levels, step counts), the two infinities and NaN: a sum is rounded
      as a double rounds it, and printed as [Number::toString] prints
      it.  Numbers with a fraction, and the sign of zero, are outside the
      model.
    - The collaborators the node calls but does not define (the ECMAScript
      [JSON] object, the error constructor of the workflow package, the
      schema code generators, the automation engine) are operations of
      type classes; the node is written against them and reference
      instances are given to run it.
    - [execute] is a computation on a state made of the calls issued to the
      engine, the [messages] buffer of the current item and the [results]
      array; what the engine answers is any function of the calls so far.
      The [console.log] lines of the source write nowhere else and are
      left out.

    Plan: the built-ins, the contracts, the helpers, the engine and the
    node; reference collaborators and example data; then the properties,
    each claim [Cn] stated above its theorem, and the further properties
    [Xn] of the same code. *)

From Stdlib Require Import ZArith String Ascii DecimalString Bool Lia.
From stdpp Require Import base list strings sets.

Set Warnings "-register-all,-clear-no-such-hyp".
Local Open Scope Z_scope.

(** ** ECMAScript built-ins used by the node *)

Module JS.

(** The line feed, on which the instructions block is split. *)
Definition LF : ascii := "010"%char.
Definition nl : string := String LF "".

(** White space and line terminators removed by [String.prototype.trim],
    among the code units below 256: TAB, LF, VT, FF, CR, SP and NBSP. *)
Definition is_whitespace (c : ascii) : bool :=
  match c with
  | "009" | "010" | "011" | "012" | "013" | " " | "160" => true
  | _ => false
  end%char.

Fixpoint trimStart (s : string) : string :=
  match s with
  | "" => ""
  | String c r => if is_whitespace c then trimStart r else s
  end.

Definition trimEnd (s : string) : string :=
  String.rev (trimStart (String.rev s)).

(** [s.trim()] *)
Definition trim (s : string) : string := trimEnd (trimStart s).

(** [s.split(sep)] for a separator of one code unit.  The result is never
    empty: a string without separator is returned whole. *)
Fixpoint split (sep : ascii) (s : string) : list string :=
  match s with
  | "" => [""]
  | String c r =>
      if Ascii.eqb c sep then "" :: split sep r
      else match split sep r with
           | [] => [String c ""]
           | h :: t => String c h :: t
           end
  end.

(** [s.includes(needle)] *)
Fixpoint includes (s needle : string) : bool :=
  String.prefix needle s
  || match s with
     | "" => false
     | String _ r => includes r needle
     end.

(** [s.length] *)
Definition strlen (s : string) : Z := Z.of_nat (String.length s).

(** Numbers: a finite number is an integer [n], meant to be one that a
    double holds (every integer up to [2^53] in magnitude is one). *)
Inductive number : Type :=
| Finite (n : Z)
| Infinity (negative : bool)
| NaN.

Coercion Finite : Z >-> number.

Definition number_eqb (x y : number) : bool :=
  match x, y with
  | Finite a, Finite b => a =? b
  | Infinity s, Infinity s' => Bool.eqb s s'
  | NaN, NaN => true
  | _, _ => false
  end.

(** The double nearest to the integer [z], ties to the even significand:
    [z] itself below [2^53]; above, the multiple of the unit in the last
    place, which is [2^(e-52)] for [2^e <= |z| < 2^(e+1)]; an infinity
    from [2^1024] on. *)
Definition round_double (z : Z) : number :=
  let a := Z.abs z in
  if a <? 2 ^ 53 then Finite z
  else
    let ulp := 2 ^ (Z.log2 a - 52) in
    let q := a / ulp in
    let r := a mod ulp in
    let q' := if 2 * r <? ulp then q
              else if ulp <? 2 * r then q + 1
              else if Z.even q then q else q + 1 in
    if 2 ^ 1024 <=? q' * ulp then Infinity (z <? 0)
    else Finite (Z.sgn z * (q' * ulp)).

(** Number::add *)
Definition add_number (x y : number) : number :=
  match x, y with
  | Finite a, Finite b => round_double (a + b)
  | NaN, _ | _, NaN => NaN
  | Infinity s, Infinity s' => if Bool.eqb s s' then Infinity s else NaN
  | Infinity s, Finite _ | Finite _, Infinity s => Infinity s
  end.

(** Values.  [Obj] keeps its properties in insertion order; a property
    is read at its first occurrence. *)
Inductive value : Type :=
| Undefined
| Null
| Bool (b : bool)
| Num (x : number)
| Str (s : string)
| Arr (elems : list value)
| Obj (props : list (string * value)).

(** Errors that are thrown.  [err_name] is the constructor's name
    ([TypeError], [SyntaxError], [ApplicationError], ...). *)
Record Error : Type := mkError { err_name : string; err_message : string }.

Definition TypeError (msg : string) : Error := mkError "TypeError" msg.
Definition SyntaxError (msg : string) : Error := mkError "SyntaxError" msg.

(** A computation that returns or throws. *)
Definition result (A : Type) : Type := Error + A.

(** ToBoolean *)
Definition truthy (v : value) : bool :=
  match v with
  | Undefined | Null => false
  | Bool b => b
  | Num (Finite n) => negb (n =? 0)
  | Num (Infinity _) => true
  | Num NaN => false
  | Str s => negb (String.eqb s "")
  | Arr _ | Obj _ => true
  end.

(** [a || b] *)
Definition js_or (a b : value) : value := if truthy a then a else b.

Fixpoint assoc {A : Type} (k : string) (l : list (string * A)) : option A :=
  match l with
  | [] => None
  | (k', v) :: r => if String.eqb k k' then Some v else assoc k r
  end.

Definition has_own {A : Type} (k : string) (l : list (string * A)) : bool :=
  match assoc k l with Some _ => true | None => false end.

(** [v.k] for a key [k] that no prototype defines: reading a property of
    [undefined] or [null] throws, a missing property reads [undefined]. *)
Definition get (v : value) (k : string) : result value :=
  match v with
  | Undefined | Null =>
      inl (TypeError ("Cannot read properties of undefined or null (reading '"
                        +:+ k +:+ "')"))
  | Obj props => inr (default Undefined (assoc k props))
  | _ => inr Undefined
  end.

(** [v?.k] *)
Definition get_opt (v : value) (k : string) : value :=
  match v with
  | Obj props => default Undefined (assoc k props)
  | _ => Undefined
  end.

(** The decimal digits of an integer. *)
Definition decimal (n : Z) : string :=
  NilZero.string_of_int (Z.to_int n).

Definition zeros (n : Z) : string :=
  String.concat "" (replicate (Z.to_nat n) "0").

(** The [s] of [k] digits for which [s * 10^(n-k)] is a decimal of the
    double [a]: it rounds to [a].  The multiples of [10^(n-k)] nearest to
    [a] are the only ones to try. *)
Definition digits_for (a n k : Z) : list (Z * Z) :=
  let p := 10 ^ (n - k) in
  let s0 := a / p in
  (fun s => (s, p)) <$>
    filter (fun s => Is_true ((10 ^ (k - 1) <=? s) && (s <? 10 ^ k)
                              && number_eqb (round_double (s * p)) (Finite a)))
      [s0; s0 + 1].

(** Of two decimals of [a], the one nearer to [a], and the even one when
    they are as near. *)
Definition nearer (a : Z) (c d : Z * Z) : Z * Z :=
  let dc := Z.abs (fst c * snd c - a) in
  let dd := Z.abs (fst d * snd d - a) in
  if dc <? dd then c
  else if dd <? dc then d
  else if Z.even (fst c) then c else d.

Definition nearest (a : Z) (l : list (Z * Z)) : option (Z * Z) :=
  match l with
  | [] => None
  | c :: r => Some (fold_left (nearer a) r c)
  end.

(** The shortest decimal [(k, n, s)] of the double [a >= 2^53]: seventeen
    digits always do. *)
Fixpoint shortest (a d : Z) (ks : list Z) : option (Z * Z * Z) :=
  match ks with
  | [] => None
  | k :: r =>
      match nearest a (digits_for a d k ++ digits_for a (d + 1) k) with
      | Some (s, p) => Some (k, if p =? 10 ^ (d - k) then d else d + 1, s)
      | None => shortest a d r
      end
  end.

(** Number::toString of a positive integer-valued double: the digits of
    the integer below [2^53], where every integer is a double; above, the
    shortest decimal, written out with zeros when it has at most
    twenty-one digits and with an exponent otherwise. *)
Definition positive_to_string (a : Z) : string :=
  if a <? 2 ^ 53 then decimal a
  else
    let d := Z.of_nat (String.length (decimal a)) in
    match shortest a d (Z.of_nat <$> seq 1 17) with
    | None => decimal a
    | Some (k, n, s) =>
        if n <=? 21 then decimal s +:+ zeros (n - k)
        else
          match decimal s with
          | String c r =>
              String c (if k =? 1 then "" else "." +:+ r)
              +:+ "e+" +:+ decimal (n - 1)
          | "" => ""
          end
    end.

(** Number::toString *)
Definition num_to_string (x : number) : string :=
  match x with
  | Finite n =>
      if n <? 0 then "-" +:+ positive_to_string (- n)
      else positive_to_string n
  | Infinity false => "Infinity"
  | Infinity true => "-Infinity"
  | NaN => "NaN"
  end.

Fixpoint join (sep : string) (l : list string) : string :=
  match l with
  | [] => ""
  | [s] => s
  | s :: r => s +:+ sep +:+ join sep r
  end.

Definition not_primitive : Error :=
  TypeError "Cannot convert object to primitive value".

(** ToString.  An array is joined with commas, [null] and [undefined]
    elements printing as nothing.  A plain object prints through
    [Object.prototype.toString] unless an own [toString] property (never
    callable in data read from JSON) shadows it; then [valueOf] is tried,
    which does not give a primitive either, and the conversion throws. *)
Fixpoint to_string (v : value) : result string :=
  match v with
  | Undefined => inr "undefined"
  | Null => inr "null"
  | Bool true => inr "true"
  | Bool false => inr "false"
  | Num n => inr (num_to_string n)
  | Str s => inr s
  | Arr elems =>
      let fix go (l : list value) : result (list string) :=
        match l with
        | [] => inr []
        | x :: r =>
            match (match x with
                   | Undefined | Null => inr ""
                   | _ => to_string x
                   end) with
            | inl e => inl e
            | inr s => match go r with
                       | inl e => inl e
                       | inr ss => inr (s :: ss)
                       end
            end
        end in
      match go elems with
      | inl e => inl e
      | inr ss => inr (join "," ss)
      end
  | Obj props =>
      if has_own "toString" props then inl not_primitive
      else inr "[object Object]"
  end.

(** ToPrimitive: an array or an object becomes its string. *)
Definition to_primitive (v : value) : result value :=
  match v with
  | Arr _ | Obj _ =>
      match to_string v with
      | inl e => inl e
      | inr s => inr (Str s)
      end
  | _ => inr v
  end.

(** ToNumber of a primitive that is no string. *)
Definition to_number (v : value) : number :=
  match v with
  | Null => Finite 0
  | Bool b => if b then Finite 1 else Finite 0
  | Num x => x
  | _ => NaN
  end.

Definition is_string (v : value) : bool :=
  match v with Str _ => true | _ => false end.

(** [a + b]: both operands are made primitive, the left one first; when
    one of them is a string the two are concatenated, otherwise they are
    added as numbers. *)
Definition js_add (a b : value) : result value :=
  match to_primitive a with
  | inl e => inl e
  | inr pa =>
      match to_primitive b with
      | inl e => inl e
      | inr pb =>
          if is_string pa || is_string pb then
            match to_string pa with
            | inl e => inl e
            | inr sa =>
                match to_string pb with
                | inl e => inl e
                | inr sb => inr (Str (sa +:+ sb))
                end
            end
          else inr (Num (add_number (to_number pa) (to_number pb)))
      end
  end.

(** [obj[k] = v] on an object created by [{}], for a value [v] that is an
    object.  A key already present keeps its place and takes the new
    value; a new key is added after the others.  [__proto__] is the one
    name [Object.prototype] defines as an accessor: assigning to it
    replaces the prototype of the object and creates no property.  (The
    list is in the order of creation; enumeration puts the names that
    are array indices first.  Once the prototype is replaced, what a
    later assignment does depends on the accessors of the new prototype,
    which the model does not follow.) *)
Fixpoint assign {A : Type} (k : string) (v : A) (props : list (string * A))
  : list (string * A) :=
  match props with
  | [] => [(k, v)]
  | (k', v') :: r =>
      if String.eqb k k' then (k, v) :: r else (k', v') :: assign k v r
  end.

Definition set_property {A : Type} (k : string) (v : A)
  (props : list (string * A)) : list (string * A) :=
  if String.eqb k "__proto__" then props else assign k v props.

End JS.

Import JS.

(** ** Type contracts (the part of Zod the node builds) *)

Module Zod.

(** How an object contract treats keys outside its shape:
    [z.object(shape)] strips them, [.passthrough()] keeps them. *)
Inductive UnknownKeys : Type := Strip | Passthrough.

Inductive ZodType : Type :=
| ZString
| ZNumber
| ZBoolean
| ZNull
| ZAny
| ZUnknown
| ZArray (element : ZodType)
| ZUnion (options : list ZodType)
| ZObject (shape : list (string * ZodType)) (unknownKeys : UnknownKeys)
| ZOptional (inner : ZodType).

(** [z.object(shape)]: the contract holds the own properties of the
    shape object. *)
Definition object (shape : list (string * ZodType)) : ZodType :=
  ZObject shape Strip.

(** [t.passthrough()], defined on object contracts. *)
Definition passthrough (t : ZodType) : ZodType :=
  match t with
  | ZObject shape _ => ZObject shape Passthrough
  | _ => t
  end.

Definition is_object (t : ZodType) : bool :=
  match t with ZObject _ _ => true | _ => false end.

End Zod.

Import Zod.

(** ** Data of the node *)

(** [type Field] *)
Record Field : Type := mkField {
  fieldName : string;
  fieldType : string;
  optional : bool
}.

(** Modelled from the spec: the engine's [LogLine] type, declared in the
    engine's package.  A log message has a category, a message, a level
    and an optional auxiliary payload; the payload maps names to entries
    whose [value] is text. *)
Record AuxEntry : Type := mkAux { aux_value : string; aux_type : string }.

Record LogLine : Type := mkLogLine {
  category : string;
  message : string;
  level : Z;
  auxiliary : option (list (string * AuxEntry))
}.

(** The [JSON] object of the host.  [JSON.parse] returns a value or throws
    a [SyntaxError]; [JSON.stringify] gives the text of a log message. *)
Class Builtins : Type := {
  JSON_parse : string -> result value;
  JSON_stringify : LogLine -> string
}.

(** The error constructor of the workflow package:
    [new NodeOperationError(node, error, { message })] for the error
    [error] that was caught and the [message] option.  What the message
    of the new error is in the end is the constructor's business (it
    replaces a message that mentions a common error code by a
    description of that code). *)
Class Workflow : Type :=
  NodeOperationError : Error -> string -> Error.

(** ** The helpers of the module *)

Section Helpers.
Context `{Builtins}.

(** The filter predicate of [sanitizeMessages]. *)
Definition keep_message (msg : LogLine) : bool :=
  let str := JSON_stringify msg in
  negb (includes str "image") && negb (includes str "screenshot")
  && (strlen str <? 5000).

(** The projection of [sanitizeMessages]. *)
Definition project_message (msg : LogLine) : value :=
  Obj [("category", Str (category msg));
       ("message", Str (message msg));
       ("level", Num (level msg))].

(** [sanitizeMessages(messages)] *)
Definition sanitizeMessages (messages : list LogLine) : list value :=
  map project_message (filter (fun msg => keep_message msg = true) messages).

(** The four locals of [extractUsageFromMessages]. *)
Record Totals : Type := mkTotals {
  totalPrompt : value;
  totalCompletion : value;
  totalTokens : value;
  found : bool
}.

(** [msg.auxiliary?.response?.value] *)
Definition response_value (msg : LogLine) : value :=
  match auxiliary msg with
  | None => Undefined
  | Some aux =>
      match assoc "response" aux with
      | None => Undefined
      | Some entry => Str (aux_value entry)
      end
  end.

(** [usage.snake || usage.camel || 0] *)
Definition counter (usage : value) (snake camel : string) : result value :=
  match get usage snake with
  | inl e => inl e
  | inr a =>
      if truthy a then inr a
      else match get usage camel with
           | inl e => inl e
           | inr b => inr (js_or b (Num 0))
           end
  end.

(** The statements of a [try] block run in order on the locals; the
    first one that throws ends the block, and the empty [catch] keeps
    the locals as they are at that point. *)
Fixpoint try_ignore (stmts : list (Totals -> result Totals)) (st : Totals)
  : Totals :=
  match stmts with
  | [] => st
  | stmt :: rest =>
      match stmt st with
      | inl _ => st
      | inr st' => try_ignore rest st'
      end
  end.

Definition set_found (st : Totals) : result Totals :=
  inr (mkTotals (totalPrompt st) (totalCompletion st) (totalTokens st) true).

Definition add_prompt (usage : value) (st : Totals) : result Totals :=
  match counter usage "prompt_tokens" "promptTokens" with
  | inl e => inl e
  | inr c =>
      match js_add (totalPrompt st) c with
      | inl e => inl e
      | inr t => inr (mkTotals t (totalCompletion st) (totalTokens st) (found st))
      end
  end.

Definition add_completion (usage : value) (st : Totals) : result Totals :=
  match counter usage "completion_tokens" "completionTokens" with
  | inl e => inl e
  | inr c =>
      match js_add (totalCompletion st) c with
      | inl e => inl e
      | inr t => inr (mkTotals (totalPrompt st) t (totalTokens st) (found st))
      end
  end.

Definition add_total (usage : value) (st : Totals) : result Totals :=
  match counter usage "total_tokens" "totalTokens" with
  | inl e => inl e
  | inr c =>
      match js_add (totalTokens st) c with
      | inl e => inl e
      | inr t => inr (mkTotals (totalPrompt st) (totalCompletion st) t (found st))
      end
  end.

(** The [try] block: parse the payload, and when the parsed value has a
    truthy [usage], mark [found] and add the three counters. *)
Definition usage_of_payload (payload : string) (st : Totals) : Totals :=
  match JSON_parse payload with
  | inl _ => st
  | inr parsed =>
      match get parsed "usage" with
      | inl _ => st
      | inr usage =>
          if truthy usage
          then try_ignore
                 [set_found; add_prompt usage; add_completion usage;
                  add_total usage] st
          else st
      end
  end.

(** The body of the [for ... of] loop. *)
Definition usage_step (st : Totals) (msg : LogLine) : Totals :=
  if String.eqb (category msg) "aisdk" && truthy (response_value msg)
  then match response_value msg with
       | Str payload => usage_of_payload payload st
       | _ => st
       end
  else st.

(** [extractUsageFromMessages(messages)] *)
Definition extractUsageFromMessages (messages : list LogLine) : value :=
  let st := fold_left usage_step messages
              (mkTotals (Num 0) (Num 0) (Num 0) false) in
  if found st
  then Obj [("prompt_tokens", totalPrompt st);
            ("completion_tokens", totalCompletion st);
            ("total_tokens", totalTokens st)]
  else Null.

End Helpers.

(** [switch (fieldType)] of [fieldsToZodSchema]: the cases are compared
    with [===], in order. *)
Definition zodOfFieldType (fieldType : string) : ZodType :=
  if String.eqb fieldType "string" then ZString
  else if String.eqb fieldType "number" then ZNumber
  else if String.eqb fieldType "boolean" then ZBoolean
  else if String.eqb fieldType "array" then ZArray ZAny
  else if String.eqb fieldType "object" then passthrough (object [])
  else ZAny.

(** [shape[fieldName] = optional ? zType.optional() : zType] *)
Definition set_field (shape : list (string * ZodType)) (f : Field)
  : list (string * ZodType) :=
  let zType := zodOfFieldType (fieldType f) in
  set_property (fieldName f) (if optional f then ZOptional zType else zType)
    shape.

(** [Stagehand.fieldsToZodSchema(fields)].  The [shape] object starts as
    [{}] and is assigned to field after field. *)
Definition fieldsToZodSchema (fields : list Field) : ZodType :=
  object (fold_left set_field fields []).

(** ** The automation engine *)

Module StagehandCore.

(** The one callback the node ever passes as [logger]:
    [(message) => { messages.push(message); }]. *)
Inductive Logger : Type := PushToMessages.

(** The argument of [new StagehandCore({...})]. *)
Record Options : Type := mkOptions {
  env : string;
  enableCaching : bool;
  verbose : Z;
  logger : option Logger;
  modelName : string;
  apiKey : string;
  cdpUrl : string
}.

(** A session object: the item it was created for and its options. *)
Record Session : Type := mkSession { owner : nat; options : Options }.

(** The calls the node makes on a session. *)
Inductive Call : Type :=
| Init                                     (* stagehand.init() *)
| Goto (url : string)                      (* page.goto(url, { waitUntil: 'domcontentloaded' }) *)
| Act (instruction : string)               (* page.act(instruction) *)
| Extract (instruction : string) (schema : ZodType)  (* page.extract({ instruction, schema }) *)
| Observe (instruction : string)           (* page.observe({ instruction }) *)
| Agent                                    (* stagehand.agent() *)
| AgentExecute (instruction : string) (maxSteps : Z) (context : option string)
                                           (* agent.execute({ ..., autoScreenshot: true }) *)
| Url                                      (* page.url() *)
| Close.                                   (* stagehand.close() *)

(** One call as it happened: on which session, and whether it returned. *)
Record Event : Type := mkEvent {
  session : Session;
  call : Call;
  returned : bool
}.

(** What the engine does on a call: the log lines it emits while the
    call runs, and the value it returns or the error it throws. *)
Record Reply : Type := mkReply {
  emitted : list LogLine;
  outcome : result value
}.

(** The engine is any function of the calls made so far. *)
Class Engine : Type := respond : list Event -> Session -> Call -> Reply.

End StagehandCore.

Import StagehandCore.

(** The schema code generators and the evaluation of their code:
    [jsonToZod] and [jsonSchemaToZod] produce source text, and
    [new_Function_z body] is the value of [new Function('z', body)(z)]. *)
Class SchemaLibs : Type := {
  jsonToZod : value -> result string;
  jsonSchemaToZod : value -> result string;
  new_Function_z : string -> result ZodType
}.

(** ** The node *)

(** The language model connected to the node. *)
Record ChatModel : Type := mkChatModel {
  lc_namespace : list string;
  model_name : string;
  model_apiKey : string
}.

(** The parameters of one input item, as [getNodeParameter] resolves them
    (defaults applied). *)
Record Item : Type := mkItem {
  operation : string;
  item_cdpUrl : string;
  item_enableCaching : bool;
  logMessages : bool;
  item_verbose : Z;
  pageUrl : string;
  instructions : string;
  schemaSource : string;
  fields : list Field;
  exampleJson : string;
  jsonSchema : string;
  manualZod : string;
  item_maxSteps : Z;
  agentContext : string
}.

(** One element of the node's output. *)
Record OutputRecord : Type := mkRecord {
  error : option Error;
  json : value
}.

(** The mutable state of a run: the calls made on the engine, the
    [messages] buffer of the current item and the [results] array. *)
Record State : Type := mkState {
  trace : list Event;
  messages : list LogLine;
  results : list OutputRecord
}.

Definition initial : State := mkState [] [] [].

(** Computations of the node: they change the state and return or throw. *)
Definition M (A : Type) : Type := State -> State * result A.

Definition ret {A : Type} (a : A) : M A := fun st => (st, inr a).

Definition throw {A : Type} (e : Error) : M A := fun st => (st, inl e).

Definition bind {A B : Type} (c : M A) (k : A -> M B) : M B :=
  fun st =>
    match c st with
    | (st', inl e) => (st', inl e)
    | (st', inr a) => k a st'
    end.

Declare Scope node_scope.
Delimit Scope node_scope with node.
Notation "x <- c ;; k" := (bind c (fun x => k))
  (at level 100, c at next level, right associativity) : node_scope.
Notation "c ;; k" := (bind c (fun _ => k))
  (at level 100, right associativity) : node_scope.
Local Open Scope node_scope.

(** A pure computation that may throw. *)
Definition lift {A : Type} (r : result A) : M A := fun st => (st, r).

(** [try { body } catch (error) { handler }] *)
Definition try_catch {A : Type} (body : M A) (handler : Error -> M A) : M A :=
  fun st =>
    match body st with
    | (st', inl e) => handler e st'
    | (st', inr a) => (st', inr a)
    end.

(** [try { body } finally { cleanup }]: the cleanup runs however the body
    ends, and what the cleanup throws replaces the outcome of the body. *)
Definition try_finally {A : Type} (body : M A) (cleanup : M unit) : M A :=
  fun st =>
    match body st with
    | (st1, r1) =>
        match cleanup st1 with
        | (st2, inl e) => (st2, inl e)
        | (st2, inr _) => (st2, r1)
        end
    end.

(** [try { body } catch (error) { handler } finally { cleanup }]: the
    cleanup runs after the body, or after the handler when the body
    threw. *)
Definition try_catch_finally {A : Type}
  (body : M A) (handler : Error -> M A) (cleanup : M unit) : M A :=
  try_finally (try_catch body handler) cleanup.

(** [assert(condition, message)] of the workflow package: it throws
    [new Error(message)]. *)
Definition assert (condition : bool) (msg : string) : M unit :=
  if condition then ret tt else throw (mkError "Error" msg).

Definition get_messages : M (list LogLine) := fun st => (st, inr (messages st)).

(** [const messages: LogLine[] = []] *)
Definition new_messages : M unit :=
  fun st => (mkState (trace st) [] (results st), inr tt).

(** [messages.push(message)] *)
Definition push_message (line : LogLine) : M unit :=
  fun st => (mkState (trace st) (messages st ++ [line]) (results st), inr tt).

(** [results.push(record)] *)
Definition push_result (r : OutputRecord) : M unit :=
  fun st => (mkState (trace st) (messages st) (results st ++ [r]), inr tt).

Definition get_results : M (list OutputRecord) :=
  fun st => (st, inr (results st)).

Definition run_logger (l : Logger) (line : LogLine) : M unit :=
  match l with PushToMessages => push_message line end.

(** The engine hands the lines it emits to the logger it was given, one by
    one; without a logger the node never sees them. *)
Fixpoint deliver (l : option Logger) (lines : list LogLine) : M unit :=
  match l, lines with
  | Some f, line :: rest => run_logger f line ;; deliver l rest
  | _, _ => ret tt
  end.

Definition record_event (ev : Event) : M unit :=
  fun st => (mkState (trace st ++ [ev]) (messages st) (results st), inr tt).

Definition is_returned {A : Type} (r : result A) : bool :=
  match r with inr _ => true | inl _ => false end.

Section Node.
Context `{Builtins} `{Workflow} `{SchemaLibs} `{Engine}.

(** One call on the engine: the engine answers from the calls so far,
    its log lines reach the logger, and the call returns or throws. *)
Definition invoke (stagehand : Session) (c : Call) : M value :=
  fun st =>
    let reply := respond (trace st) stagehand c in
    bind (record_event (mkEvent stagehand c (is_returned (outcome reply))))
      (fun _ => bind (deliver (logger (options stagehand)) (emitted reply))
      (fun _ => lift (outcome reply))) st.

(** [Stagehand.isChatInstance(model)] *)
Definition isChatInstance (model : ChatModel) : bool :=
  existsb (String.eqb "chat_models") (lc_namespace model).

(** The provider name the engine expects.  [lc_namespace[2]] of a short
    namespace is [undefined], which prints as such in the model name. *)
Definition provider_of (model : ChatModel) : string :=
  let provider := default "undefined" (lc_namespace model !! 2%nat) in
  if String.eqb provider "google_genai" || String.eqb provider "google_vertexai"
  then "google"
  else if includes (model_name model) "deepseek" then "deepseek"
  else provider.

(** The options object built for an item. *)
Definition options_of (model : ChatModel) (it : Item) : Options :=
  {| env := "LOCAL";
     enableCaching := item_enableCaching it;
     verbose := item_verbose it;
     logger := if logMessages it then Some PushToMessages else None;
     modelName := provider_of model +:+ "/" +:+ model_name model;
     apiKey := model_apiKey model;
     cdpUrl := item_cdpUrl it |}.

(** [instructionsRaw.split('\n').map(s => s.trim()).filter(s => s.length > 0)] *)
Definition act_instructions (instructionsRaw : string) : list string :=
  filter (fun s => 0 < strlen s) (map trim (split LF instructionsRaw)).

(** [instructionsRaw.split('\n')[0]?.trim() || ''] *)
Definition first_line_instruction (instructionsRaw : string) : string :=
  match split LF instructionsRaw !! 0%nat with
  | None => ""
  | Some line => let s := trim line in if String.eqb s "" then "" else s
  end.

(** [...(logMessages ? { messages: sanitizeMessages(messages) } : {})] *)
Definition messages_spread (it : Item) : M (list (string * value)) :=
  if logMessages it
  then msgs <- get_messages ;; ret [("messages", Arr (sanitizeMessages msgs))]
  else ret [].

(** The [for ... of] loop of the act operation. *)
Fixpoint act_loop (stagehand : Session) (todo : list string)
  (actResults : list value) : M (list value) :=
  match todo with
  | [] => ret actResults
  | instruction :: rest =>
      res <- invoke stagehand (Act instruction) ;;
      act_loop stagehand rest
        (actResults ++ [Obj [("instruction", Str instruction); ("result", res)]])
  end.

(** [switch (schemaSource)] of the extract operation. *)
Definition resolve_schema (it : Item) : result ZodType :=
  let source := schemaSource it in
  if String.eqb source "fieldList" then
    inr (fieldsToZodSchema (fields it))
  else if String.eqb source "example" then
    match JSON_parse (exampleJson it) with
    | inl e => inl e
    | inr v =>
        match jsonToZod v with
        | inl e => inl e
        | inr code => new_Function_z (code +:+ "return schema;")
        end
    end
  else if String.eqb source "jsonSchema" then
    match JSON_parse (jsonSchema it) with
    | inl e => inl e
    | inr v =>
        match jsonSchemaToZod v with
        | inl e => inl e
        | inr code => new_Function_z ("return " +:+ code +:+ ";")
        end
    end
  else if String.eqb source "manual" then
    new_Function_z ("return " +:+ manualZod it +:+ ";")
  else
    inl (mkError "ApplicationError" ("Unsupported schema source: " +:+ source)).

(** [action => ({ type: action.type, ... })] *)
Definition simplify_action (action : value) : result value :=
  match get action "type" with
  | inl e => inl e
  | inr type =>
      inr (Obj [("type", type);
                ("reasoning", get_opt action "reasoning");
                ("parameters", get_opt action "parameters");
                ("taskCompleted", get_opt action "taskCompleted")])
  end.

Fixpoint map_result {A B : Type} (f : A -> result B) (l : list A)
  : result (list B) :=
  match l with
  | [] => inr []
  | x :: r =>
      match f x with
      | inl e => inl e
      | inr y => match map_result f r with
                 | inl e => inl e
                 | inr ys => inr (y :: ys)
                 end
      end
  end.

(** [agentResult.actions.map(...)]: only an array has [map]. *)
Definition simplify_actions (agentResult : value) : result (list value) :=
  match get agentResult "actions" with
  | inl e => inl e
  | inr (Arr actions) => map_result simplify_action actions
  | inr Undefined | inr Null =>
      inl (TypeError "Cannot read properties of undefined (reading 'map')")
  | inr _ => inl (TypeError "agentResult.actions.map is not a function")
  end.

(** [case 'act'] *)
Definition do_act (stagehand : Session) (it : Item) : M unit :=
  actResults <- act_loop stagehand (act_instructions (instructions it)) [] ;;
  currentUrl <- invoke stagehand Url ;;
  spread <- messages_spread it ;;
  push_result
    (mkRecord None
       (Obj ([("operation", Str (operation it));
              ("results", Arr actResults);
              ("currentUrl", currentUrl)] ++ spread))).

(** [case 'extract'] *)
Definition do_extract (stagehand : Session) (it : Item) : M unit :=
  let instruction := first_line_instruction (instructions it) in
  schema <- lift (resolve_schema it) ;;
  res <- invoke stagehand (Extract instruction schema) ;;
  spread <- messages_spread it ;;
  push_result
    (mkRecord None
       (Obj ([("operation", Str (operation it)); ("result", res)] ++ spread))).

(** [case 'observe'] *)
Definition do_observe (stagehand : Session) (it : Item) : M unit :=
  let instruction := first_line_instruction (instructions it) in
  res <- invoke stagehand (Observe instruction) ;;
  spread <- messages_spread it ;;
  push_result
    (mkRecord None
       (Obj ([("operation", Str (operation it)); ("result", res)] ++ spread))).

(** [case 'agent'] *)
Definition do_agent (stagehand : Session) (it : Item) : M unit :=
  let instruction := trim (instructions it) in
  invoke stagehand Agent ;;
  agentResult <-
    invoke stagehand
      (AgentExecute instruction (item_maxSteps it)
         (if String.eqb (agentContext it) "" then None
          else Some (agentContext it))) ;;
  msgs <- get_messages ;;
  let usage := extractUsageFromMessages msgs in
  simplifiedActions <- lift (simplify_actions agentResult) ;;
  currentUrl <- invoke stagehand Url ;;
  spread <- messages_spread it ;;
  push_result
    (mkRecord None
       (Obj ([("operation", Str (operation it));
              ("success", get_opt agentResult "success");
              ("message", get_opt agentResult "message");
              ("completed", get_opt agentResult "completed");
              ("actions", Arr simplifiedActions);
              ("actionCount", Num (Z.of_nat (length simplifiedActions)));
              ("usage", usage);
              ("currentUrl", currentUrl)] ++ spread))).

(** The body of the [try] block: [switch (operation)]. *)
Definition dispatch (stagehand : Session) (it : Item) : M unit :=
  let op := operation it in
  if String.eqb op "act" then do_act stagehand it
  else if String.eqb op "extract" then do_extract stagehand it
  else if String.eqb op "observe" then do_observe stagehand it
  else if String.eqb op "agent" then do_agent stagehand it
  else throw (mkError "ApplicationError" ("Unsupported operation: " +:+ op)).

(** The [catch] block. *)
Definition on_error (it : Item) (e : Error) : M unit :=
  spread <- messages_spread it ;;
  push_result
    (mkRecord
       (Some (NodeOperationError e
                ("Error executing Stagehand operation: " +:+ err_message e)))
       (Obj ([("operation", Str (operation it))] ++ spread))).

(** The body of the loop over the items, for item [i]. *)
Definition process_item (model : ChatModel) (i : nat) (it : Item) : M unit :=
  new_messages ;;
  let stagehand := mkSession i (options_of model it) in
  invoke stagehand Init ;;
  (if String.eqb (pageUrl it) "" then ret tt
   else invoke stagehand (Goto (pageUrl it)) ;; ret tt) ;;
  try_catch_finally
    (dispatch stagehand it)
    (on_error it)
    (invoke stagehand Close ;; ret tt).

(** [for (let i = 0; i < items.length; i++) { ... }], from index [i]. *)
Fixpoint for_items (model : ChatModel) (i : nat) (items : list Item) : M unit :=
  match items with
  | [] => ret tt
  | it :: rest => process_item model i it ;; for_items model (S i) rest
  end.

(** [execute()]: the checks on the model, the loop, [return [results]]. *)
Definition execute (model : ChatModel) (items : list Item)
  : M (list (list OutputRecord)) :=
  assert (isChatInstance model) "A Chat Model is required" ;;
  for_items model 0 items ;;
  rs <- get_results ;;
  ret [rs].

(** A whole run, from the initial state. *)
Definition run (model : ChatModel) (items : list Item)
  : State * result (list (list OutputRecord)) :=
  execute model items initial.

End Node.

(** ** Reference collaborators

    The interfaces are instantiated here, to run the node on concrete
    batches.  The parser and the printer follow ECMA-404 on the values of
    the model: a number literal is read as the double nearest to it when
    its value is an integer; a literal whose value has a fraction is
    outside the model, and the parser says so instead of answering.  The
    text of a syntax error is the instance's own; no engine is bound to
    it. *)

Module Reference.

Definition dq : ascii := "034"%char.

(** JSON texts are written here with apostrophes for quotation marks. *)
Fixpoint text (s : string) : string :=
  match s with
  | "" => ""
  | String c r => String (if Ascii.eqb c "'" then dq else c) (text r)
  end.

Definition is_json_ws (c : ascii) : bool :=
  match c with
  | " " | "009" | "010" | "013" => true
  | _ => false
  end%char.

Fixpoint skip_ws (s : string) : string :=
  match s with
  | "" => ""
  | String c r => if is_json_ws c then skip_ws r else s
  end.

Fixpoint strip_prefix (p s : string) : option string :=
  match p, s with
  | "", _ => Some s
  | String a p', String b s' => if Ascii.eqb a b then strip_prefix p' s' else None
  | _, _ => None
  end.

Definition digit (c : ascii) : option Z :=
  match Ascii.is_nat c with
  | Some n => Some (Z.of_nat n)
  | None => None
  end.

(** The value of a hexadecimal digit, from its code unit. *)
Definition hex (c : ascii) : option N :=
  let n := N_of_ascii c in
  if (48 <=? n)%N && (n <=? 57)%N then Some (n - 48)%N
  else if (97 <=? n)%N && (n <=? 102)%N then Some (n - 87)%N
  else if (65 <=? n)%N && (n <=? 70)%N then Some (n - 55)%N
  else None.

Definition outside (what : string) : Error :=
  mkError "Error" (what +:+ " is outside the reference instance").

Definition malformed : Error := SyntaxError "Unexpected token in JSON".

(** The digits at the head of [s], most significant first: their value
    after [acc], their number after [n], and the rest of [s]. *)
Fixpoint digits (s : string) (acc n : Z) : Z * Z * string :=
  match s with
  | "" => (acc, n, "")
  | String c r =>
      match digit c with
      | Some d => digits r (10 * acc + d) (n + 1)
      | None => (acc, n, s)
      end
  end.

(** The integer part of a number literal: [0], or digits that do not
    start with [0]. *)
Definition parse_int (s : string) : option (Z * Z * string) :=
  match s with
  | String "0" r => Some (0, 1, r)
  | _ => let '(m, n, r) := digits s 0 0 in
         if n =? 0 then None else Some (m, n, r)
  end.

(** The fraction of a number literal, if there is one. *)
Definition parse_fraction (s : string) (m : Z) : option (Z * Z * string) :=
  match s with
  | String "." r =>
      let '(m', n, r') := digits r m 0 in
      if n =? 0 then None else Some (m', n, r')
  | _ => Some (m, 0, s)
  end.

(** The exponent of a number literal, if there is one. *)
Definition parse_exponent (s : string) : option (Z * string) :=
  let unsigned (negative : bool) (r : string) :=
    let '(x, n, r') := digits r 0 0 in
    if n =? 0 then None else Some (if negative then - x else x, r') in
  match s with
  | String "e" r | String "E" r =>
      match r with
      | String "+" r' => unsigned false r'
      | String "-" r' => unsigned true r'
      | _ => unsigned false r
      end
  | _ => Some (0, s)
  end%char.

(** The number a literal [m * 10^e] denotes ([nd] is the number of digits
    of [m]): the double nearest to it when it is an integer. *)
Definition number_of_literal (negative : bool) (m nd e : Z) : result number :=
  let sign (z : Z) := if negative then - z else z in
  if m =? 0 then inr (Finite 0)
  else if 0 <=? e then
    if 400 <? e then inr (Infinity negative)
    else inr (round_double (sign (m * 10 ^ e)))
  else if nd <? - e then inl (outside "A number with a fraction")
  else if m mod 10 ^ (- e) =? 0 then inr (round_double (sign (m / 10 ^ (- e))))
  else inl (outside "A number with a fraction").

Definition parse_number (s : string) : result (number * string) :=
  let '(negative, s1) :=
    match s with
    | String "-" r => (true, r)
    | _ => (false, s)
    end%char in
  match parse_int s1 with
  | None => inl malformed
  | Some (i, ni, s2) =>
      match parse_fraction s2 i with
      | None => inl malformed
      | Some (m, nf, s3) =>
          match parse_exponent s3 with
          | None => inl malformed
          | Some (x, s4) =>
              match number_of_literal negative m (ni + nf) (x - nf) with
              | inl e => inl e
              | inr v => inr (v, s4)
              end
          end
      end
  end.

(** The characters of a string literal after its opening quotation
    mark, up to the closing one. *)
Fixpoint parse_chars (s : string) (acc : string) : option (string * string) :=
  match s with
  | "" => None
  | String "\" (String c r) =>
      match c with
      | "034" | "\" | "/" => parse_chars r (String c acc)
      | "b" => parse_chars r (String "008" acc)
      | "f" => parse_chars r (String "012" acc)
      | "n" => parse_chars r (String "010" acc)
      | "r" => parse_chars r (String "013" acc)
      | "t" => parse_chars r (String "009" acc)
      | "u" =>
          match r with
          | String h1 (String h2 (String h3 (String h4 r'))) =>
              match hex h1, hex h2, hex h3, hex h4 with
              | Some 0%N, Some 0%N, Some a, Some b =>
                  parse_chars r' (String (ascii_of_N (16 * a + b)) acc)
              | _, _, _, _ => None
              end
          | _ => None
          end
      | _ => None
      end%char
  | String c r =>
      if Ascii.eqb c dq then Some (String.rev acc, r)
      else if (N_of_ascii c <? 32)%N then None
      else parse_chars r (String c acc)
  end.

(** A member of an object literal is defined on the object, whatever its
    name: a key already present keeps its place and takes the new
    value. *)
Fixpoint parse_value (fuel : nat) (s : string) : result (value * string) :=
  match fuel with
  | O => inl malformed
  | S n =>
      match skip_ws s with
      | "" => inl malformed
      | String c r as s' =>
          if Ascii.eqb c dq then
            match parse_chars r ""%string with
            | Some (str, r') => inr (Str str, r')
            | None => inl malformed
            end
          else match c with
          | "n" => match strip_prefix "null"%string s' with
                   | Some r' => inr (Null, r') | None => inl malformed end
          | "t" => match strip_prefix "true"%string s' with
                   | Some r' => inr (Bool true, r') | None => inl malformed end
          | "f" => match strip_prefix "false"%string s' with
                   | Some r' => inr (Bool false, r') | None => inl malformed end
          | "[" =>
              match skip_ws r with
              | String "]" r' => inr (Arr [], r')
              | _ =>
                  match parse_elements n r [] with
                  | inr (l, r') => inr (Arr l, r')
                  | inl e => inl e
                  end
              end
          | "{" =>
              match skip_ws r with
              | String "}" r' => inr (Obj [], r')
              | _ =>
                  match parse_members n r [] with
                  | inr (l, r') => inr (Obj l, r')
                  | inl e => inl e
                  end
              end
          | _ =>
              match parse_number s' with
              | inr (x, r') => inr (Num x, r')
              | inl e => inl e
              end
          end%char
      end
  end
with parse_elements (fuel : nat) (s : string) (acc : list value)
  : result (list value * string) :=
  match fuel with
  | O => inl malformed
  | S n =>
      match parse_value n s with
      | inl e => inl e
      | inr (v, r) =>
          match skip_ws r with
          | String "," r' => parse_elements n r' (acc ++ [v])
          | String "]" r' => inr (acc ++ [v], r')
          | _ => inl malformed
          end
      end
  end
with parse_members (fuel : nat) (s : string) (acc : list (string * value))
  : result (list (string * value) * string) :=
  match fuel with
  | O => inl malformed
  | S n =>
      match skip_ws s with
      | String c r =>
          if Ascii.eqb c dq then
            match parse_chars r "" with
            | None => inl malformed
            | Some (k, r1) =>
                match skip_ws r1 with
                | String ":" r2 =>
                    match parse_value n r2 with
                    | inl e => inl e
                    | inr (v, r3) =>
                        match skip_ws r3 with
                        | String "," r4 => parse_members n r4 (assign k v acc)
                        | String "}" r4 => inr (assign k v acc, r4)
                        | _ => inl malformed
                        end
                    end
                | _ => inl malformed
                end
            end
          else inl malformed
      | "" => inl malformed
      end
  end.

(** [JSON.parse(text)] *)
Definition parse (s : string) : result value :=
  match parse_value (2 * String.length s + 2) s with
  | inr (v, r) =>
      match skip_ws r with
      | "" => inr v
      | _ => inl malformed
      end
  | inl e => inl e
  end.

Definition hex_digit (n : N) : ascii :=
  ascii_of_N (if (n <? 10)%N then 48 + n else 87 + n)%N.

(** QuoteJSONString, one code unit at a time. *)
Definition escape (c : ascii) : string :=
  match N_of_ascii c with
  | 34 => String "\" (String dq "")
  | 92 => "\\"
  | 8 => "\b"
  | 9 => "\t"
  | 10 => "\n"
  | 12 => "\f"
  | 13 => "\r"
  | n =>
      if (n <? 32)%N
      then "\u00" +:+ String (hex_digit (n / 16)) (String (hex_digit (n mod 16)) "")
      else String c ""
  end%N.

Fixpoint escape_all (s : string) : string :=
  match s with
  | "" => ""
  | String c r => escape c +:+ escape_all r
  end.

Definition quote (s : string) : string :=
  String dq (escape_all s) +:+ String dq "".

Definition member (k v : string) : string := quote k +:+ ":" +:+ v.

Definition stringify_entry (e : string * AuxEntry) : string :=
  member (fst e)
    ("{" +:+ member "value" (quote (aux_value (snd e))) +:+ ","
         +:+ member "type" (quote (aux_type (snd e))) +:+ "}").

(** [JSON.stringify(msg)], the properties in the order of the record. *)
Definition stringify (msg : LogLine) : string :=
  "{" +:+ member "category" (quote (category msg)) +:+ ","
      +:+ member "message" (quote (message msg)) +:+ ","
      +:+ member "level" (num_to_string (level msg))
      +:+ match auxiliary msg with
          | None => ""
          | Some aux =>
              "," +:+ member "auxiliary"
                        ("{" +:+ join "," (map stringify_entry aux) +:+ "}")
          end
      +:+ "}".

#[export] Instance builtins : Builtins :=
  {| JSON_parse := parse; JSON_stringify := stringify |}.

(** [s.toUpperCase()], on the code units below 256: the letters of the
    Latin alphabet, with and without accents, and the sharp s, which
    becomes two letters.  (The capitals of the micro sign and of the y
    with diaeresis are not below 256; they are left as they are, and they
    are no letters of an error code.) *)
Definition upper_char (c : ascii) : string :=
  let n := N_of_ascii c in
  if (97 <=? n)%N && (n <=? 122)%N then String (ascii_of_N (n - 32)) ""
  else if (n =? 223)%N then "SS"
  else if (224 <=? n)%N && (n <=? 254)%N && negb (n =? 247)%N
       then String (ascii_of_N (n - 32)) ""
  else String c "".

Fixpoint toUpperCase (s : string) : string :=
  match s with
  | "" => ""
  | String c r => upper_char c +:+ toUpperCase r
  end.

(** The common error codes of the workflow package and their
    descriptions, in the order in which they are tried. *)
Definition common_errors : list (string * string) :=
  [("ECONNREFUSED", "The service refused the connection - perhaps it is offline");
   ("ECONNRESET",
    "The connection to the server was closed unexpectedly, perhaps it is offline. You can retry the request immediately or wait and retry later.");
   ("ENOTFOUND",
    "The connection cannot be established, this usually occurs due to an incorrect host (domain) value");
   ("ETIMEDOUT",
    "The connection timed out, consider setting the 'Retry on Fail' option in the node settings");
   ("ERRADDRINUSE",
    "The port is already occupied by some other application, if possible change the port or kill the application that is using it");
   ("EADDRNOTAVAIL",
    "The address is not available, ensure that you have the right IP address");
   ("ECONNABORTED", "The connection was aborted, perhaps the server is offline");
   ("EHOSTUNREACH", "The host is unreachable, perhaps the server is offline");
   ("EAI_AGAIN", "The DNS server returned an error, perhaps the server is offline");
   ("ENOENT", "The file or directory does not exist");
   ("EISDIR", "The file path was expected but the given path is a directory");
   ("ENOTDIR", "The directory path was expected but the given path is a file");
   ("EACCES",
    "Forbidden by access permissions, make sure you have the right permissions");
   ("EEXIST", "The file or directory already exists");
   ("EPERM", "Operation not permitted, make sure you have the right permissions");
   ("GETADDRINFO", "The server closed the connection unexpectedly")].

(** The message the constructor leaves: the description of the first
    code that the message mentions, in any case of the letters, and the
    message itself when it mentions none. *)
Definition descriptive (message : string) : string :=
  match List.find (fun entry => includes (toUpperCase message)
                                  (toUpperCase (fst entry))) common_errors with
  | Some entry => snd entry
  | None => message
  end.

(** The constructor hands back an error that is a [NodeOperationError]
    already. *)
#[export] Instance workflow : Workflow :=
  fun error message =>
    if String.eqb (err_name error) "NodeOperationError" then error
    else mkError "NodeOperationError" (descriptive message).

(** The code the [json-to-zod] package prints for a scalar example: the
    contract of the example's [typeof].  Composite examples are left to
    the package. *)
Definition scalar_code (v : value) : result string :=
  match v with
  | Str _ => inr ("const schema = z.string();" +:+ nl)
  | Num _ => inr ("const schema = z.number();" +:+ nl)
  | Bool _ => inr ("const schema = z.boolean();" +:+ nl)
  | Null => inr ("const schema = z.null();" +:+ nl)
  | _ => inl (outside "a composite example")
  end.

(** Evaluation of the function bodies above, and of the same builder
    calls returned directly. *)
Definition eval_body (body : string) : result ZodType :=
  let body_is (expr : string) :=
    String.eqb body ("const schema = " +:+ expr +:+ ";" +:+ nl +:+ "return schema;")
    || String.eqb body ("return " +:+ expr +:+ ";") in
  if body_is "z.string()" then inr ZString
  else if body_is "z.number()" then inr ZNumber
  else if body_is "z.boolean()" then inr ZBoolean
  else if body_is "z.null()" then inr ZNull
  else if body_is "z.any()" then inr ZAny
  else inl (outside "this function body").

#[export] Instance libs : SchemaLibs :=
  {| jsonToZod := scalar_code;
     jsonSchemaToZod := fun _ => inl (outside "a JSON Schema document");
     new_Function_z := eval_body |}.

(** What a call returns when it does not throw. *)
Definition answer (c : Call) : value :=
  match c with
  | Act instruction =>
      Obj [("success", Bool true); ("action", Str instruction)]
  | Extract _ _ => Obj [("title", Str "Example Domain")]
  | Observe _ => Arr []
  | AgentExecute _ _ _ =>
      Obj [("success", Bool true); ("message", Str "done");
           ("completed", Bool true);
           ("actions", Arr [Obj [("type", Str "click");
                                 ("reasoning", Str "open the page");
                                 ("taskCompleted", Bool true);
                                 ("screenshot", Str "...")]])]
  | Url => Str "https://example.com/"
  | Init | Goto _ | Agent | Close => Undefined
  end.

(** An engine given by the calls that throw and the lines each call
    emits. *)
Definition scripted (throws : Session -> Call -> bool)
  (logs : Session -> Call -> list LogLine) : Engine :=
  fun _ sess c =>
    {| emitted := logs sess c;
       outcome := if throws sess c
                  then inl (mkError "Error" "the engine failed")
                  else inr (answer c) |}.

Definition silent : Session -> Call -> list LogLine := fun _ _ => [].

Definition chat_model : ChatModel :=
  {| lc_namespace := ["langchain"; "chat_models"; "openai"];
     model_name := "gpt-4o";
     model_apiKey := "sk-test" |}.

(** An item with the defaults of the node's parameters. *)
Definition item (operation instructions pageUrl : string) (logMessages : bool)
  : Item :=
  {| operation := operation;
     item_cdpUrl := "ws://localhost:9222/devtools/browser/1";
     item_enableCaching := true;
     logMessages := logMessages;
     item_verbose := 0;
     pageUrl := pageUrl;
     instructions := instructions;
     schemaSource := "fieldList";
     fields := [];
     exampleJson := text "{'title':'My Title'}";
     jsonSchema := "{}";
     manualZod := "z.any()";
     item_maxSteps := 10;
     agentContext := "" |}.

End Reference.

(** ** Vocabulary of the properties *)

Fixpoint has_char (c : ascii) (s : string) : bool :=
  match s with
  | "" => false
  | String a r => Ascii.eqb a c || has_char c r
  end.

(** The first line of an instructions block that is not empty once
    trimmed. *)
Definition first_nonempty_line (instructionsRaw : string) : option string :=
  head (act_instructions instructionsRaw).

Definition is_init (c : Call) : bool :=
  match c with Init => true | _ => false end.

Definition is_goto (c : Call) : bool :=
  match c with Goto _ => true | _ => false end.

Definition is_act (c : Call) : bool :=
  match c with Act _ => true | _ => false end.

Definition is_close (c : Call) : bool :=
  match c with Close => true | _ => false end.

(** The calls around the [try] statement: opening the session, the
    navigation, closing the session. *)
Definition lifecycle (c : Call) : bool :=
  match c with Init | Goto _ | Close => true | _ => false end.

(** An event that is not a lifecycle call that threw. *)
Definition settled (ev : Event) : bool :=
  negb (lifecycle (call ev)) || returned ev.

(** The state [st] after more calls, log lines and records. *)
Definition extend (st : State) (evs : list Event) (lines : list LogLine)
    (recs : list OutputRecord) : State :=
  mkState (trace st ++ evs) (messages st ++ lines) (results st ++ recs).

(** The lines of a call that reach the buffer of the node. *)
Definition received (stagehand : Session) (lines : list LogLine) : list LogLine :=
  match logger (options stagehand) with
  | Some _ => lines
  | None => []
  end.

(** The event a call leaves in the trace. *)
Definition event_of `{Engine} (st : State) (stagehand : Session) (c : Call)
    : Event :=
  mkEvent stagehand c (is_returned (outcome (respond (trace st) stagehand c))).

(** The log lines that reach the buffer of the node while the calls [evs]
    are made after the calls [history]. *)
Fixpoint lines_of `{Engine} (history evs : list Event) : list LogLine :=
  match evs with
  | [] => []
  | ev :: rest =>
      received (session ev) (emitted (respond history (session ev) (call ev)))
      ++ lines_of (history ++ [ev]) rest
  end.

(** The state [st] after the calls [evs], whose lines are in the buffer,
    and the records [recs]. *)
Definition grow `{Engine} (st : State) (evs : list Event)
    (recs : list OutputRecord) : State :=
  mkState (trace st ++ evs) (messages st ++ lines_of (trace st) evs)
    (results st ++ recs).

(** The [messages] entry of a record, as the spread of the source sets it
    from the buffer. *)
Definition messages_entry `{Builtins} (it : Item) (buffer : list LogLine) : value :=
  if logMessages it then Arr (sanitizeMessages buffer) else Undefined.

(** The record the [catch] block makes of the error [e], with the buffer
    as it is then: the error of the constructor, made from [e] and from
    the message of [e] behind the words of the node, and nothing besides
    the operation tag and, under the option, the messages. *)
Definition error_record `{Builtins} `{Workflow} (it : Item) (e : Error)
    (buffer : list LogLine) : OutputRecord :=
  mkRecord
    (Some (NodeOperationError e
             ("Error executing Stagehand operation: " +:+ err_message e)))
    (Obj (("operation", Str (operation it))
          :: (if logMessages it
              then [("messages", Arr (sanitizeMessages buffer))] else []))).

(** The calls that open the session of an item and load its page, when
    they return. *)
Definition opening (stagehand : Session) (it : Item) : list Event :=
  mkEvent stagehand Init true
  :: (if String.eqb (pageUrl it) "" then []
      else [mkEvent stagehand (Goto (pageUrl it)) true]).

(** The record of an item whose [try] block is entered in the state [st]:
    when the switch returns, the record it appended, which has no error;
    when the switch throws, the error record of what it threw.  So a
    record without error is never the record of a switch that threw. *)
Definition captured `{Builtins} `{Workflow} `{SchemaLibs} `{Engine}
    (stagehand : Session) (it : Item) (st : State) (rec : OutputRecord) : Prop :=
  get_opt (json rec) "operation" = Str (operation it) /\
  match dispatch stagehand it st with
  | (st', inr _) => results st' = results st ++ [rec] /\ error rec = None
  | (st', inl e) => results st' = results st /\
                    rec = error_record it e (messages st')
  end.

(** What the body of the [try] block does to the state: calls on its
    session that are no lifecycle calls; when it returns, one record
    without error, whose [messages] entry is taken from the buffer as the
    calls left it; no record when it throws. *)
Definition body_effect `{Builtins} `{Engine} (stagehand : Session) (it : Item)
    (c : M unit) (st : State) : Prop :=
  exists evs recs r,
    c st = (grow st evs recs, r) /\
    Forall (fun ev => session ev = stagehand /\ lifecycle (call ev) = false) evs /\
    match r with
    | inr _ => exists rec, recs = [rec] /\ error rec = None /\
                           get_opt (json rec) "operation" = Str (operation it) /\
                           get_opt (json rec) "messages" =
                             messages_entry it (messages (grow st evs []))
    | inl _ => recs = []
    end.

Section UsageVocabulary.
Context `{Builtins}.

(** The auxiliary response payload of a message of the model-usage
    category, when it has a non-empty one. *)
Definition payload_of (msg : LogLine) : option string :=
  if String.eqb (category msg) "aisdk" then
    match auxiliary msg with
    | Some aux =>
        match assoc "response" aux with
        | Some entry =>
            if String.eqb (aux_value entry) "" then None
            else Some (aux_value entry)
        | None => None
        end
    | None => None
    end
  else None.

(** The usage object a message yields: its payload parses to an object
    whose [usage] property is truthy. *)
Definition usage_of (msg : LogLine) : option value :=
  match payload_of msg with
  | Some payload =>
      match JSON_parse payload with
      | inr (Obj props) =>
          match assoc "usage" props with
          | Some u => if truthy u then Some u else None
          | None => None
          end
      | _ => None
      end
  | None => None
  end.

Definition number_or_zero (v : value) : number :=
  match v with Num x => x | _ => Finite 0 end.

(** A counter read under either spelling: the snake_case key when it is
    set (it holds something other than zero, NaN, [null], [false] or the
    empty string), the camelCase key when that one is set, and zero when
    neither is. *)
Definition counter_of (snake camel : string) (usage : value) : number :=
  if truthy (get_opt usage snake) then number_or_zero (get_opt usage snake)
  else if truthy (get_opt usage camel) then number_or_zero (get_opt usage camel)
  else Finite 0.

(** A counter is a number, where it is set at all. *)
Definition counter_ok (v : value) : bool :=
  negb (truthy v) || match v with Num _ => true | _ => false end.

Definition counter_keys : list string :=
  ["prompt_tokens"; "promptTokens"; "completion_tokens"; "completionTokens";
   "total_tokens"; "totalTokens"].

Definition numeric_counters (usage : value) : bool :=
  forallb (fun k => counter_ok (get_opt usage k)) counter_keys.

(** A message whose usage object, if it yields one, has numeric counters. *)
Definition well_typed (msg : LogLine) : bool :=
  match usage_of msg with
  | Some u => numeric_counters u
  | None => true
  end.

(** The sum of numbers as the loop computes it: from zero, one addition
    of doubles after the other. *)
Definition sum_numbers (l : list number) : number :=
  fold_left add_number l (Finite 0).

(** The sum of integers. *)
Definition total (l : list Z) : Z := foldr Z.add 0 l.

End UsageVocabulary.

(** ** Example data *)

Module Examples.
Import Reference.


Definition navigation_fails : Engine :=
  scripted (fun _ c => is_goto c) silent.

Definition first_close_fails : Engine :=
  scripted (fun s c => is_close c && Nat.eqb (owner s) 0) silent.

Definition second_act_fails : Engine :=
  scripted (fun s c => is_act c && Nat.eqb (owner s) 1) silent.

Definition never_fails : Engine := scripted (fun _ _ => false) silent.

(** A usage line as the engine logs it for a model call. *)
Definition usage_line (payload : string) : LogLine :=
  mkLogLine "aisdk" "response" 1 (Some [("response", mkAux (text payload) "object")]).

Definition snake_usage : LogLine :=
  usage_line "{'usage':{'prompt_tokens':10,'completion_tokens':5,'total_tokens':15}}".

Definition camel_usage : LogLine :=
  usage_line "{'usage':{'promptTokens':20,'completionTokens':7,'totalTokens':27}}".

Definition malformed_usage : LogLine := usage_line "{'usage':".

(** A usage line whose prompt counter is text. *)
Definition text_counter_usage : LogLine :=
  usage_line "{'usage':{'prompt_tokens':'7','total_tokens':7}}".

(** Usage lines with one counter, the first of them 2^53. *)
Definition large_usage : LogLine :=
  usage_line "{'usage':{'total_tokens':9007199254740992}}".

Definition unit_usage : LogLine := usage_line "{'usage':{'total_tokens':1}}".

Definition action_line : LogLine := mkLogLine "action" "clicked" 1 None.

Definition screenshot_line : LogLine :=
  mkLogLine "agent" "screenshot taken" 1 None.

(** An engine whose agent makes two model calls and logs their usage. *)
Definition talkative : Engine :=
  scripted (fun _ _ => false)
    (fun _ c => match c with
                | AgentExecute _ _ _ => [snake_usage; camel_usage]
                | _ => []
                end).

Definition three_acts : list Item :=
  [item "act" "Click A" "" false; item "act" "Click B" "" false;
   item "act" "Click C" "" false].

Definition two_acts : list Item :=
  [item "act" "Click A" "" false; item "act" "Click B" "" false].

Definition blank_line_first : string := nl +:+ "Click A".

Definition act_block : string :=
  "Click A" +:+ nl +:+ nl +:+ "Type B" +:+ nl.

(** An extract item whose schema is given by an example that is a JSON
    string. *)
Definition string_example : Item :=
  {| operation := "extract";
     item_cdpUrl := "ws://localhost:9222/devtools/browser/1";
     item_enableCaching := true;
     logMessages := false;
     item_verbose := 0;
     pageUrl := "";
     instructions := "Get the title";
     schemaSource := "example";
     fields := [];
     exampleJson := text "'hello'";
     jsonSchema := "{}";
     manualZod := "z.any()";
     item_maxSteps := 10;
     agentContext := "" |}.

Definition session_of (i : nat) (it : Item) : Session :=
  mkSession i (options_of chat_model it).

End Examples.

(** The runs the examples refer to. *)
Module Runs.
Import Reference Examples.


Definition act_failure : State * result (list (list OutputRecord)) :=
  @run builtins workflow libs second_act_fails chat_model three_acts.

Definition navigation_failure : State * result (list (list OutputRecord)) :=
  @run builtins workflow libs navigation_fails chat_model
    [item "act" "Click A" "https://example.com" false].

Definition close_failure : State * result (list (list OutputRecord)) :=
  @run builtins workflow libs first_close_fails chat_model two_acts.

Definition observe_blank_first : State * result (list (list OutputRecord)) :=
  @run builtins workflow libs never_fails chat_model [item "observe" blank_line_first "" false].

Definition extract_blank_first : State * result (list (list OutputRecord)) :=
  @run builtins workflow libs never_fails chat_model [item "extract" blank_line_first "" false].

Definition extract_string_example : State * result (list (list OutputRecord)) :=
  @run builtins workflow libs never_fails chat_model [string_example].

Definition agent_without_log : State * result (list (list OutputRecord)) :=
  @run builtins workflow libs talkative chat_model [item "agent" "Find the price" "" false].

Definition agent_with_log : State * result (list (list OutputRecord)) :=
  @run builtins workflow libs talkative chat_model [item "agent" "Find the price" "" true].

Definition usage_log : list LogLine :=
  [snake_usage; malformed_usage; action_line; camel_usage].

Definition three_fields : list Field :=
  [mkField "title" "string" false; mkField "tags" "array" true;
   mkField "published" "date" false].

(** A descriptor named as the prototype accessor of objects. *)
Definition proto_fields : list Field :=
  [mkField "title" "string" false; mkField "__proto__" "number" false].

End Runs.

(** ** Further vocabulary *)

(** A list of numbers that never decreases. *)
Definition nondecreasing (l : list nat) : Prop :=
  forall a b x y, l !! a = Some x -> l !! b = Some y -> (a <= b)%nat -> (x <= y)%nat.

(** The contract [fieldsToZodSchema] gives a field. *)
Definition field_contract (f : Field) : ZodType :=
  if optional f then ZOptional (zodOfFieldType (fieldType f))
  else zodOfFieldType (fieldType f).

Definition starts_with_whitespace (s : string) : bool :=
  match s with
  | "" => false
  | String c _ => is_whitespace c
  end.

Definition ends_with_whitespace (s : string) : bool :=
  starts_with_whitespace (String.rev s).

(** [action => ({ type, reasoning, parameters, taskCompleted })] on an
    action that is neither [null] nor [undefined]. *)
Definition simplified (action : value) : value :=
  Obj [("type", get_opt action "type");
       ("reasoning", get_opt action "reasoning");
       ("parameters", get_opt action "parameters");
       ("taskCompleted", get_opt action "taskCompleted")].

Definition nullish (v : value) : bool :=
  match v with Undefined | Null => true | _ => false end.

(** ** More example data *)

Module Cases.
Import Reference Examples.

Definition opening_line : LogLine := mkLogLine "init" "browser connected" 1 None.

Definition closing_line : LogLine := mkLogLine "close" "browser released" 1 None.

(** An engine that logs when a session is opened, observed and closed. *)
Definition reporting : Engine :=
  scripted (fun _ _ => false)
    (fun _ c => match c with
                | Init => [opening_line]
                | Observe _ => [screenshot_line; action_line]
                | Close => [closing_line]
                | _ => []
                end).

(** An extract item with the given schema source and example text. *)
Definition extract_item (source example : string) : Item :=
  {| operation := "extract";
     item_cdpUrl := "ws://localhost:9222/devtools/browser/1";
     item_enableCaching := true;
     logMessages := false;
     item_verbose := 0;
     pageUrl := "";
     instructions := "Get the title";
     schemaSource := source;
     fields := [];
     exampleJson := example;
     jsonSchema := "{}";
     manualZod := "z.any()";
     item_maxSteps := 10;
     agentContext := "" |}.

(** Two descriptors of the same name. *)
Definition twice_title : list Field :=
  [mkField "title" "string" false; mkField "title" "number" true].

Definition blank_block : string := "  " +:+ nl +:+ nl +:+ " ".

Definition completion_model : ChatModel :=
  {| lc_namespace := ["langchain"; "llms"; "openai"];
     model_name := "gpt-3.5-turbo-instruct";
     model_apiKey := "sk-test" |}.

Definition deepseek_on (provider : string) : ChatModel :=
  {| lc_namespace := ["langchain"; "chat_models"; provider];
     model_name := "deepseek-chat";
     model_apiKey := "sk-test" |}.

Definition observed_record : OutputRecord :=
  mkRecord None
    (Obj [("operation", Str "observe"); ("result", Arr []);
          ("messages",
           Arr [Obj [("category", Str "init"); ("message", Str "browser connected");
                     ("level", Num 1)];
                Obj [("category", Str "action"); ("message", Str "clicked");
                     ("level", Num 1)]])]).

End Cases.

(** * Properties *)

(** ** Strings *)

Lemma prefix_app (p s : string) :
  String.prefix p s = true <-> exists t, s = p +:+ t.
Proof.
  revert s; induction p as [|a p IH]; intros s.
  - split; [intros _; exists s; reflexivity | intros _; by destruct s].
  - destruct s as [|b s]; simpl.
    + split; [discriminate | intros [t Ht]; discriminate].
    + destruct (ascii_dec a b) as [->|Hab].
      * rewrite IH. split; intros [t Ht]; exists t; [by rewrite Ht | by injection Ht].
      * split; [discriminate | intros [t Ht]; injection Ht; congruence].
Qed.

(** [includes] is the substring test. *)
Lemma includes_spec (s needle : string) :
  includes s needle = true <-> exists pre post, s = pre +:+ needle +:+ post.
Proof.
  induction s as [|c s IH]; cbn [includes].
  - rewrite orb_false_r, prefix_app. split.
    + intros [t Ht]. exists "", t. exact Ht.
    + intros [pre [post Hs]]. destruct pre; [eauto|discriminate].
  - rewrite orb_true_iff, IH. split.
    + intros [Hp | [pre [post Hs]]].
      * apply prefix_app in Hp as [t Ht]. exists "", t. exact Ht.
      * exists (String c pre), post. simpl. by rewrite Hs.
    + intros [pre [post Hs]]. destruct pre as [|c' pre]; simpl in Hs.
      * left. apply prefix_app. eauto.
      * right. injection Hs as _ Hs. eauto.
Qed.

Lemma split_nonempty (sep : ascii) (s : string) : split sep s <> [].
Proof.
  destruct s as [|c r]; simpl; [done|].
  destruct (Ascii.eqb c sep); [done|]. by destruct (split sep r).
Qed.

(** The first element of [split LF s] is the text of [s] before its first
    line feed. *)
Lemma split_head (s : string) :
  exists line rest,
    split LF s !! 0%nat = Some line /\
    s = line +:+ rest /\
    has_char LF line = false /\
    (rest = "" \/ exists r, rest = nl +:+ r).
Proof.
  induction s as [|c s (line & rest & Hl & Hs & Hn & Hr)]; simpl.
  - exists "", "". auto.
  - destruct (Ascii.eqb c LF) eqn:Hc.
    + apply Ascii.eqb_eq in Hc as ->. exists "", (String LF s).
      repeat split; auto. right. by exists s.
    + destruct (split LF s) as [|h t] eqn:Hsp; [done|]. simpl in Hl.
      injection Hl as ->. exists (String c line), rest. simpl. rewrite Hc.
      repeat split; auto. by rewrite Hs at 1.
Qed.

Lemma first_line_instruction_spec (raw : string) :
  exists line rest,
    raw = line +:+ rest /\
    has_char LF line = false /\
    (rest = "" \/ exists r, rest = nl +:+ r) /\
    first_line_instruction raw = trim line.
Proof.
  destruct (split_head raw) as (line & rest & Hl & Hs & Hn & Hr).
  exists line, rest. repeat split; try done.
  unfold first_line_instruction. rewrite Hl. cbv zeta.
  by destruct (String.eqb_spec (trim line) "") as [->|].
Qed.

Lemma forallb_Forall {A : Type} (f : A -> bool) (l : list A) :
  forallb f l = true <-> Forall (fun x => f x = true) l.
Proof.
  induction l as [|x l IH]; simpl.
  - split; [constructor|done].
  - rewrite andb_true_iff, IH, Forall_cons. done.
Qed.

Lemma filter_none {A : Type} (P : A -> Prop) `{forall x, Decision (P x)}
  (l : list A) :
  Forall (fun x => ~ P x) l -> filter P l = [].
Proof.
  induction 1 as [|x l Hx _ IH]; [done|]. by rewrite filter_cons_False.
Qed.

Lemma filter_all {A : Type} (P : A -> Prop) `{forall x, Decision (P x)}
  (l : list A) :
  Forall P l -> filter P l = l.
Proof.
  induction 1 as [|x l Hx _ IH]; [done|]. rewrite filter_cons_True by done.
  by rewrite IH.
Qed.

(** ** The output filter *)

Section Filter.
Context `{Builtins}.

Lemma keep_message_spec (msg : LogLine) :
  keep_message msg = true <->
  includes (JSON_stringify msg) "image" = false /\
  includes (JSON_stringify msg) "screenshot" = false /\
  strlen (JSON_stringify msg) < 5000.
Proof.
  unfold keep_message. rewrite !andb_true_iff, !negb_true_iff, Z.ltb_lt. tauto.
Qed.

(** C7.  The output filter returns the projections, to category, message
    and level, of a sublist [kept] of the messages, so in their order.
    No retained message has a serialized form that contains [image] or
    [screenshot], and none has one longer than 5000 characters (the code
    asks for fewer than 5000); every message that passes the three tests
    is retained. *)
Theorem sanitizeMessages_filters_in_order (messages : list LogLine) :
  exists kept : list LogLine,
    sublist kept messages /\
    sanitizeMessages messages =
      map (fun msg => Obj [("category", Str (category msg));
                           ("message", Str (message msg));
                           ("level", Num (level msg))]) kept /\
    Forall (fun msg =>
              includes (JSON_stringify msg) "image" = false /\
              includes (JSON_stringify msg) "screenshot" = false /\
              strlen (JSON_stringify msg) < 5000 /\
              ~ (strlen (JSON_stringify msg) > 5000)) kept /\
    (forall msg, msg ∈ messages ->
       includes (JSON_stringify msg) "image" = false ->
       includes (JSON_stringify msg) "screenshot" = false ->
       strlen (JSON_stringify msg) < 5000 ->
       msg ∈ kept).
Proof.
  exists (filter (fun msg => keep_message msg = true) messages).
  split; [apply sublist_filter|]. split; [reflexivity|]. split.
  - apply Forall_forall. intros msg [Hk _]%list_elem_of_filter.
    apply keep_message_spec in Hk as (? & ? & ?). repeat split; auto; lia.
  - intros msg Hin H1 H2 H3. apply list_elem_of_filter. split; [|done].
    by apply keep_message_spec.
Qed.

End Filter.

(** ** Usage aggregation *)

Section Usage.
Context `{Builtins}.

Lemma get_truthy (v : value) (k : string) :
  truthy v = true -> get v k = inr (get_opt v k).
Proof. by destruct v. Qed.

Lemma counter_ok_cases (v : value) :
  counter_ok v = true -> truthy v = false \/ exists x, v = Num x.
Proof.
  unfold counter_ok. intros [Hf|Hn]%orb_true_iff.
  - left. by apply negb_true_iff.
  - right. destruct v; try done. eauto.
Qed.

Lemma counter_numeric (usage : value) (snake camel : string) :
  truthy usage = true ->
  counter_ok (get_opt usage snake) = true ->
  counter_ok (get_opt usage camel) = true ->
  counter usage snake camel = inr (Num (counter_of snake camel usage)).
Proof.
  intros Hu Hs%counter_ok_cases Hc%counter_ok_cases.
  unfold counter, counter_of. rewrite !get_truthy by done.
  destruct (truthy (get_opt usage snake)) eqn:Ha.
  - destruct Hs as [Hs|[x Hx]]; [congruence|]. by rewrite Hx.
  - unfold js_or. destruct (truthy (get_opt usage camel)) eqn:Hb; [|done].
    destruct Hc as [Hc|[y Hy]]; [congruence|]. by rewrite Hy.
Qed.

Lemma js_add_numbers (x y : number) :
  js_add (Num x) (Num y) = inr (Num (add_number x y)).
Proof. reflexivity. Qed.

(** A message that yields no usage object leaves the totals as they are,
    whatever they are. *)
Lemma usage_step_skip (st : Totals) (msg : LogLine) :
  usage_of msg = None -> usage_step st msg = st.
Proof.
  unfold usage_step, usage_of, payload_of, response_value.
  destruct (String.eqb (category msg) "aisdk"); simpl; [|done].
  destruct (auxiliary msg) as [aux|]; simpl; [|done].
  destruct (assoc "response" aux) as [entry|]; simpl; [|done].
  destruct (String.eqb (aux_value entry) ""); simpl; [done|].
  unfold usage_of_payload.
  destruct (JSON_parse (aux_value entry)) as [e|parsed]; [done|].
  destruct parsed as [| |b|n|s|l|props]; simpl; try done.
  destruct (assoc "usage" props) as [u|]; simpl; [|done].
  by destruct (truthy u).
Qed.

(** A message that yields the usage object [u] runs the four statements
    of the [try] block on it. *)
Lemma usage_step_unfold (st : Totals) (msg : LogLine) (u : value) :
  usage_of msg = Some u ->
  usage_step st msg =
    try_ignore [set_found; add_prompt u; add_completion u; add_total u] st.
Proof.
  unfold usage_step, usage_of, payload_of, response_value.
  destruct (String.eqb (category msg) "aisdk"); simpl; [|done].
  destruct (auxiliary msg) as [aux|]; simpl; [|done].
  destruct (assoc "response" aux) as [entry|]; simpl; [|done].
  destruct (String.eqb (aux_value entry) ""); simpl; [done|].
  unfold usage_of_payload.
  destruct (JSON_parse (aux_value entry)) as [e|parsed]; [done|].
  destruct parsed as [| |b|n|s|l|props]; simpl; try done.
  destruct (assoc "usage" props) as [u'|]; simpl; [|done].
  destruct (truthy u') eqn:Htr; [|done]. by intros [= ->].
Qed.

Lemma usage_of_truthy (msg : LogLine) (u : value) :
  usage_of msg = Some u -> truthy u = true.
Proof.
  unfold usage_of. destruct (payload_of msg) as [payload|]; [|done].
  destruct (JSON_parse _) as [e|[| |b|n|s|l|props]]; try done.
  destruct (assoc "usage" props) as [u'|]; [|done].
  destruct (truthy u') eqn:Htr; [|done]. by intros [= <-].
Qed.

Lemma usage_step_spec (p c t : number) (f : bool) (msg : LogLine) :
  well_typed msg = true ->
  usage_step (mkTotals (Num p) (Num c) (Num t) f) msg =
    match usage_of msg with
    | None => mkTotals (Num p) (Num c) (Num t) f
    | Some u =>
        mkTotals
          (Num (add_number p (counter_of "prompt_tokens" "promptTokens" u)))
          (Num (add_number c (counter_of "completion_tokens" "completionTokens" u)))
          (Num (add_number t (counter_of "total_tokens" "totalTokens" u))) true
    end.
Proof.
  intros Hnum. destruct (usage_of msg) as [u|] eqn:Hu;
    [|by apply usage_step_skip].
  unfold well_typed in Hnum. rewrite Hu in Hnum.
  unfold numeric_counters, counter_keys in Hnum. cbn [forallb] in Hnum.
  repeat (apply andb_true_iff in Hnum as [? Hnum]).
  pose proof (usage_of_truthy _ _ Hu) as Htr.
  rewrite (usage_step_unfold _ _ _ Hu).
  cbn [try_ignore set_found]. unfold add_prompt, add_completion, add_total.
  cbn [totalPrompt totalCompletion totalTokens found].
  by rewrite !counter_numeric, !js_add_numbers.
Qed.

Lemma fold_usage_step (messages : list LogLine) (p c t : number) (f : bool) :
  forallb well_typed messages = true ->
  fold_left usage_step messages (mkTotals (Num p) (Num c) (Num t) f) =
    let us := omap usage_of messages in
    mkTotals
      (Num (fold_left add_number
              (map (counter_of "prompt_tokens" "promptTokens") us) p))
      (Num (fold_left add_number
              (map (counter_of "completion_tokens" "completionTokens") us) c))
      (Num (fold_left add_number
              (map (counter_of "total_tokens" "totalTokens") us) t))
      (f || match us with [] => false | _ => true end).
Proof.
  revert p c t f. induction messages as [|msg rest IH]; intros p c t f Hall; simpl.
  - by rewrite orb_false_r.
  - simpl in Hall. apply andb_true_iff in Hall as [Hmsg Hrest].
    rewrite usage_step_spec by done.
    destruct (usage_of msg) as [u|]; simpl.
    + rewrite IH by done. simpl. by rewrite orb_true_r.
    + by rewrite IH.
Qed.

Lemma round_double_exact (z : Z) :
  Z.abs z < 2 ^ 53 -> round_double z = Finite z.
Proof.
  intros Hz. unfold round_double. cbv zeta.
  by destruct (Z.ltb_spec (Z.abs z) (2 ^ 53)); [|lia].
Qed.

(** As long as the sum of the magnitudes stays below [2^53], every
    addition is exact. *)
Lemma fold_add_number_exact (counters : list Z) (acc : Z) :
  Z.abs acc + total (map Z.abs counters) < 2 ^ 53 ->
  fold_left add_number (map Finite counters) (Finite acc) =
  Finite (acc + total counters).
Proof.
  revert acc. induction counters as [|x l IH]; intros acc Hsafe; simpl in *.
  - by rewrite Z.add_0_r.
  - assert (0 <= total (map Z.abs l)).
    { clear. induction l; simpl; lia. }
    rewrite round_double_exact by lia. rewrite IH by lia.
    f_equal. lia.
Qed.

(** X1.  A message that yields no usage object (another category, no
    payload, a payload that does not parse, no [usage] in it) can be
    dropped from the sequence: it never stops the aggregation of the
    others. *)
Lemma extractUsage_skips (before after : list LogLine) (msg : LogLine) :
  usage_of msg = None ->
  extractUsageFromMessages (before ++ msg :: after) =
  extractUsageFromMessages (before ++ after).
Proof.
  intros Hu. unfold extractUsageFromMessages.
  rewrite !fold_left_app. simpl. by rewrite usage_step_skip.
Qed.

(** C6, as the code has it.  Usage aggregation looks at the messages
    that yield a usage object: those of category [aisdk] whose auxiliary
    response payload parses to an object with a [usage] entry
    ([usage_of]).  When every counter that is set in these objects is a
    number ([well_typed]), it returns [null] when there is no such
    message, the empty sequence included, and otherwise the three
    counters, each read under its snake_case or its camelCase key
    ([counter_of]) and added up over these messages, in their order, as
    doubles are added ([sum_numbers]); messages of other categories and
    messages whose payload is malformed yield no usage object, so they
    are skipped and the others are still added up.  The sums of integer
    counters are their exact sums as long as the magnitudes add up to
    less than [2^53]. *)
Theorem extractUsage_sums_usage_messages (messages : list LogLine) :
  forallb well_typed messages = true ->
  extractUsageFromMessages messages =
    match omap usage_of messages with
    | [] => Null
    | us =>
        Obj [("prompt_tokens",
              Num (sum_numbers
                     (map (counter_of "prompt_tokens" "promptTokens") us)));
             ("completion_tokens",
              Num (sum_numbers
                     (map (counter_of "completion_tokens" "completionTokens") us)));
             ("total_tokens",
              Num (sum_numbers
                     (map (counter_of "total_tokens" "totalTokens") us)))]
    end /\
  (forall counters : list Z,
     total (map Z.abs counters) < 2 ^ 53 ->
     sum_numbers (map Finite counters) = Finite (total counters)).
Proof.
  intros Hall. split.
  - unfold extractUsageFromMessages. rewrite fold_usage_step by done.
    simpl. by destruct (omap usage_of messages).
  - intros counters Hsafe. unfold sum_numbers.
    by rewrite fold_add_number_exact.
Qed.

End Usage.

(** ** The field-list schema *)

Lemma zodOfFieldType_unknown (k : string) :
  k ∉ ["string"; "number"; "boolean"; "array"; "object"] ->
  zodOfFieldType k = ZAny.
Proof.
  intros Hk. unfold zodOfFieldType.
  repeat match goal with
  | |- context [String.eqb k ?s] =>
      destruct (String.eqb_spec k s) as [->|_]; [exfalso; apply Hk; set_solver|]
  end. reflexivity.
Qed.

Lemma assoc_assign_eq {A : Type} (k : string) (v : A) (l : list (string * A)) :
  assoc k (assign k v l) = Some v.
Proof.
  induction l as [|[k' v'] l IH]; simpl.
  - by rewrite String.eqb_refl.
  - destruct (String.eqb_spec k k') as [->|Hk]; simpl.
    + by rewrite String.eqb_refl.
    + by destruct (String.eqb_spec k k').
Qed.

Lemma assoc_assign_ne {A : Type} (k k' : string) (v : A) (l : list (string * A)) :
  k <> k' -> assoc k' (assign k v l) = assoc k' l.
Proof.
  intros Hk. induction l as [|[k0 v0] l IH]; simpl.
  - by destruct (String.eqb_spec k' k) as [->|_].
  - destruct (String.eqb_spec k k0) as [->|Hk0]; simpl.
    + by destruct (String.eqb_spec k' k0) as [->|_].
    + by rewrite IH.
Qed.

Lemma assoc_None {A : Type} (k : string) (l : list (string * A)) :
  assoc k l = None <-> k ∉ map fst l.
Proof.
  induction l as [|[k' v'] l IH]; simpl.
  - split; [intros _ Hin; by apply elem_of_nil in Hin|done].
  - destruct (String.eqb_spec k k') as [->|Hk].
    + split; [done|]. intros Hin. exfalso. apply Hin. apply list_elem_of_here.
    + rewrite IH. split.
      * intros Hl [?|?]%elem_of_cons; done.
      * intros Hl Hin. apply Hl. by apply list_elem_of_further.
Qed.

(** A new key is added after the others. *)
Lemma assign_new {A : Type} (k : string) (v : A) (l : list (string * A)) :
  k ∉ map fst l -> assign k v l = l ++ [(k, v)].
Proof.
  induction l as [|[k' v'] l IH]; simpl; [done|].
  intros Hk. destruct (String.eqb_spec k k') as [->|_].
  - exfalso. apply Hk. apply list_elem_of_here.
  - rewrite IH; [done|]. intros Hin. apply Hk. by apply list_elem_of_further.
Qed.

(** The lookup in the shape after the assignments: the last descriptor
    of the name decides, and no descriptor makes a property
    [__proto__]. *)
Lemma fold_set_field_last (fields : list Field) (shape : list (string * ZodType))
  (k : string) :
  assoc k (fold_left set_field fields shape) =
    if String.eqb k "__proto__" then assoc k shape
    else match last (filter (fun f => fieldName f = k) fields) with
         | Some f => Some (field_contract f)
         | None => assoc k shape
         end.
Proof.
  revert shape. induction fields as [|f fs IH]; intros shape.
  { simpl. by destruct (String.eqb k "__proto__"). }
  cbn [fold_left]. rewrite IH.
  destruct (String.eqb_spec k "__proto__") as [Heq|Hproto].
  - unfold set_field, set_property.
    destruct (String.eqb_spec (fieldName f) "__proto__") as [_|Hf]; [done|].
    rewrite assoc_assign_ne; [done|]. by rewrite Heq.
  - destruct (decide (fieldName f = k)) as [Hk|Hk].
    + rewrite filter_cons_True by done.
      destruct (filter _ fs) as [|g gs] eqn:Hfs; simpl.
      * unfold set_field, set_property. rewrite Hk.
        destruct (String.eqb_spec k "__proto__") as [?|_]; [done|].
        rewrite assoc_assign_eq. unfold field_contract. done.
      * change (last (f :: g :: gs)) with (last (g :: gs)).
        destruct (last (g :: gs)) eqn:Hl; [done|]. by apply last_None in Hl.
    + rewrite filter_cons_False by done.
      destruct (last _); [done|]. unfold set_field, set_property.
      destruct (String.eqb (fieldName f) "__proto__"); [done|].
      by rewrite assoc_assign_ne.
Qed.

(** The names of the shape after the assignments of descriptors of new
    and distinct names. *)
Lemma fold_set_field_names (fields : list Field) (shape : list (string * ZodType)) :
  NoDup (map fst shape ++ map fieldName fields) ->
  "__proto__" ∉ map fieldName fields ->
  map fst (fold_left set_field fields shape) = map fst shape ++ map fieldName fields.
Proof.
  revert shape. induction fields as [|f fs IH]; intros shape Hnd Hproto; simpl.
  - by rewrite app_nil_r.
  - assert (Hf : fieldName f <> "__proto__").
    { intros Heq. apply Hproto. rewrite <- Heq. simpl. apply list_elem_of_here. }
    assert (Hnew : fieldName f ∉ map fst shape).
    { apply NoDup_app in Hnd as (_ & Hdis & _). intros Hin.
      apply (Hdis _ Hin). simpl. apply list_elem_of_here. }
    assert (Hset : set_field shape f = shape ++ [(fieldName f, field_contract f)]).
    { unfold set_field, set_property.
      destruct (String.eqb_spec (fieldName f) "__proto__") as [?|_]; [done|].
      by apply assign_new. }
    rewrite IH.
    + rewrite Hset, map_app. simpl. by rewrite <- app_assoc.
    + rewrite Hset, map_app. simpl. by rewrite <- app_assoc.
    + intros Hin. apply Hproto. simpl. by apply list_elem_of_further.
Qed.

(** C8, as the code has it.  For field descriptors with distinct names,
    none of which is [__proto__], the field-list source resolves to an
    object contract whose property names are exactly the given names;
    each property has the contract of its kind, wrapped as optional
    exactly when the descriptor is marked optional; and the kinds map to
    string, number, boolean, array of any and open (passthrough) object,
    any other kind to [any].  (Names need not be non-empty.) *)
Theorem fieldsToZodSchema_contract (fields : list Field) :
  NoDup (map fieldName fields) ->
  "__proto__" ∉ map fieldName fields ->
  exists shape : list (string * ZodType),
    fieldsToZodSchema fields = ZObject shape Strip /\
    map fst shape ≡ₚ map fieldName fields /\
    (forall f, f ∈ fields ->
       assoc (fieldName f) shape =
         Some (if optional f then ZOptional (zodOfFieldType (fieldType f))
               else zodOfFieldType (fieldType f))) /\
    zodOfFieldType "string" = ZString /\
    zodOfFieldType "number" = ZNumber /\
    zodOfFieldType "boolean" = ZBoolean /\
    zodOfFieldType "array" = ZArray ZAny /\
    zodOfFieldType "object" = ZObject [] Passthrough /\
    (forall kind, kind ∉ ["string"; "number"; "boolean"; "array"; "object"] ->
       zodOfFieldType kind = ZAny).
Proof.
  intros Hnd Hproto. exists (fold_left set_field fields []).
  split; [reflexivity|]. split; [by rewrite fold_set_field_names|].
  split; [|repeat split; try reflexivity; apply zodOfFieldType_unknown].
  intros f Hin. rewrite fold_set_field_last.
  destruct (String.eqb_spec (fieldName f) "__proto__") as [Heq|_].
  { exfalso. apply Hproto. rewrite <- Heq. by apply (list_elem_of_fmap_2 fieldName). }
  assert (filter (fun g => fieldName g = fieldName f) fields = [f]) as ->; [|done].
  clear Hproto. induction fields as [|g fs IH]; [by apply elem_of_nil in Hin|].
  simpl in Hnd. apply NoDup_cons in Hnd as [Hg Hnd].
  apply elem_of_cons in Hin as [->|Hin].
  - rewrite filter_cons_True by done. f_equal. apply filter_none.
    apply Forall_forall. intros h Hh Heq. apply Hg. rewrite <- Heq.
    by apply (list_elem_of_fmap_2 fieldName).
  - rewrite filter_cons_False; [by apply IH|]. intros Heq. apply Hg.
    rewrite Heq. by apply (list_elem_of_fmap_2 fieldName).
Qed.

(** ** The calls of the node on the engine *)

Lemma extend_nil (st : State) : extend st [] [] [] = st.
Proof. destruct st. unfold extend. simpl. by rewrite !app_nil_r. Qed.

Lemma extend_extend (st : State) e1 l1 r1 e2 l2 r2 :
  extend (extend st e1 l1 r1) e2 l2 r2 =
  extend st (e1 ++ e2) (l1 ++ l2) (r1 ++ r2).
Proof. unfold extend. simpl. by rewrite !app_assoc. Qed.

Lemma deliver_eq (l : option Logger) (lines : list LogLine) (st : State) :
  deliver l lines st =
    (extend st [] (match l with Some _ => lines | None => [] end) [], inr tt).
Proof.
  destruct l as [[]|].
  - revert st. induction lines as [|line rest IH]; intros st; simpl.
    + by rewrite extend_nil.
    + unfold bind. simpl. rewrite IH. unfold extend. simpl.
      by rewrite <- !app_assoc, !app_nil_r.
  - destruct lines; simpl; by rewrite extend_nil.
Qed.

Lemma received_None (stagehand : Session) (lines : list LogLine) :
  logger (options stagehand) = None -> received stagehand lines = [].
Proof. unfold received. by intros ->. Qed.

Section Calls.
Context `{Builtins} `{Workflow} `{SchemaLibs} `{Engine}.

Lemma invoke_eq (stagehand : Session) (c : Call) (st : State) :
  invoke stagehand c st =
    (extend st [event_of st stagehand c]
       (received stagehand (emitted (respond (trace st) stagehand c))) [],
     outcome (respond (trace st) stagehand c)).
Proof.
  unfold invoke, bind, record_event, lift. rewrite deliver_eq.
  unfold extend, received, event_of. simpl. by rewrite !app_nil_r.
Qed.

Lemma bind_invoke {A : Type} (stagehand : Session) (c : Call)
  (k : value -> M A) (st : State) :
  bind (invoke stagehand c) k st =
    let st' := extend st [event_of st stagehand c]
       (received stagehand (emitted (respond (trace st) stagehand c))) [] in
    match outcome (respond (trace st) stagehand c) with
    | inl e => (st', inl e)
    | inr v => k v st'
    end.
Proof. unfold bind. rewrite invoke_eq. done. Qed.

Lemma push_result_eq (r : OutputRecord) (st : State) :
  push_result r st = (extend st [] [] [r], inr tt).
Proof. unfold push_result, extend. by rewrite !app_nil_r. Qed.

Lemma bind_spread {A : Type} (it : Item) (k : list (string * value) -> M A)
  (st : State) :
  bind (messages_spread it) k st =
    k (if logMessages it
       then [("messages", Arr (sanitizeMessages (messages st)))]
       else []) st.
Proof. unfold bind, messages_spread. by destruct (logMessages it). Qed.

Lemma dispatch_op (sh : Session) (it : Item) (op : string) :
  operation it = op ->
  dispatch sh it =
    if String.eqb op "act" then do_act sh it
    else if String.eqb op "extract" then do_extract sh it
    else if String.eqb op "observe" then do_observe sh it
    else if String.eqb op "agent" then do_agent sh it
    else throw (mkError "ApplicationError" ("Unsupported operation: " +:+ op)).
Proof. intros <-. reflexivity. Qed.

(** The act loop calls [act] on the instructions in order, and stops at
    the first call that throws. *)
(** The act loop calls [act] on the instructions in order, and stops at
    the first call that throws: every call before it returned, and what
    it threw is the outcome of the loop. *)
Lemma act_loop_spec (stagehand : Session) (todo : list string)
  (acc : list value) (st : State) :
  exists (evs : list Event) (lines : list LogLine) (r : result (list value)),
    act_loop stagehand todo acc st = (extend st evs lines [], r) /\
    Forall (fun ev => session ev = stagehand) evs /\
    (logger (options stagehand) = None -> lines = []) /\
    call <$> evs = Act <$> take (length evs) todo /\
    match r with
    | inr out =>
        length evs = length todo /\
        Forall (fun ev => returned ev = true) evs /\
        exists vals,
          length vals = length todo /\
          (forall j i v, todo !! j = Some i -> vals !! j = Some v ->
             outcome (respond (trace st ++ take j evs) stagehand (Act i)) = inr v) /\
          out = acc ++ zip_with (fun i v => Obj [("instruction", Str i); ("result", v)])
                         todo vals
    | inl e =>
        exists before failing,
          evs = before ++ [failing] /\
          Forall (fun ev => returned ev = true) before /\
          returned failing = false /\
          outcome (respond (trace st ++ before) stagehand (call failing)) = inl e
    end.
Proof.
  revert acc st. induction todo as [|i rest IH]; intros acc st.
  - exists [], [], (inr acc). simpl. rewrite extend_nil.
    repeat split; try done. exists []. rewrite app_nil_r. repeat split; done.
  - cbn [act_loop]. rewrite bind_invoke. cbv zeta.
    destruct (outcome (respond (trace st) stagehand (Act i))) as [e|v] eqn:Hout.
    + do 3 eexists. split; [reflexivity|]. csimpl. repeat split; try done.
      * by repeat constructor.
      * apply received_None.
      * exists [], (event_of st stagehand (Act i)). split; [done|].
        split; [done|]. unfold event_of. cbn [returned call].
        rewrite app_nil_r, Hout. done.
    + match goal with |- context [act_loop stagehand rest ?a ?s] =>
        destruct (IH a s) as (evs & lines & r & Hst & Hsess & Hlines & Hcalls & Hres)
      end.
      rewrite Hst, extend_extend.
      assert (Hret : returned (event_of st stagehand (Act i)) = true).
      { unfold event_of. cbn [returned]. by rewrite Hout. }
      exists (event_of st stagehand (Act i) :: evs),
             (received stagehand (emitted (respond (trace st) stagehand (Act i))) ++ lines),
             r.
      csimpl. repeat split; try done.
      * constructor; done.
      * intros Hn. by rewrite (Hlines Hn), (received_None _ _ Hn).
      * by rewrite Hcalls.
      * destruct r as [e|out].
        -- destruct Hres as (before & failing & -> & Hbefore & Hfail & He).
           exists (event_of st stagehand (Act i) :: before), failing.
           split; [done|]. split; [by constructor|]. split; [done|].
           cbn [trace extend] in He. by rewrite <- app_assoc in He.
        -- destruct Hres as (Hl & Hrets & vals & Hlen & Hvals & ->).
           split; [by rewrite Hl|]. split; [by constructor|].
           exists (v :: vals). split; [simpl; by rewrite Hlen|]. split.
           ++ intros [|j] i' v' Hi Hv; simpl in Hi, Hv.
              ** injection Hi as <-. injection Hv as <-.
                 simpl. by rewrite app_nil_r.
              ** specialize (Hvals j i' v' Hi Hv). cbn [trace extend] in Hvals.
                 simpl. by rewrite <- app_assoc in Hvals.
           ++ simpl. by rewrite <- app_assoc.
Qed.

Lemma lines_of_app (history evs1 evs2 : list Event) :
  lines_of history (evs1 ++ evs2) =
  lines_of history evs1 ++ lines_of (history ++ evs1) evs2.
Proof.
  revert history. induction evs1 as [|ev evs1 IH]; intros history; simpl.
  - by rewrite app_nil_r.
  - rewrite IH, <- !app_assoc. done.
Qed.

(** Sessions without a logger leave no line. *)
Lemma lines_of_silent (history evs : list Event) :
  Forall (fun ev => logger (options (session ev)) = None) evs ->
  lines_of history evs = [].
Proof.
  revert history. induction evs as [|ev evs IH]; intros history Hall; [done|].
  apply Forall_cons in Hall as [Hev Hall]. simpl.
  by rewrite (received_None _ _ Hev), IH.
Qed.

Lemma grow_nil (st : State) : grow st [] [] = st.
Proof. destruct st. unfold grow. simpl. by rewrite !app_nil_r. Qed.

Lemma grow_grow (st : State) e1 r1 e2 r2 :
  grow (grow st e1 r1) e2 r2 = grow st (e1 ++ e2) (r1 ++ r2).
Proof.
  unfold grow. cbn [trace messages results].
  by rewrite lines_of_app, !app_assoc.
Qed.

Lemma invoke_grow (sh : Session) (c : Call) (st : State) :
  invoke sh c st =
    (grow st [event_of st sh c] [], outcome (respond (trace st) sh c)).
Proof.
  rewrite invoke_eq. unfold grow, extend. simpl. by rewrite !app_nil_r.
Qed.

Lemma bind_invoke_grow {A : Type} (sh : Session) (c : Call)
  (k : value -> M A) (st : State) :
  bind (invoke sh c) k st =
    match outcome (respond (trace st) sh c) with
    | inl e => (grow st [event_of st sh c] [], inl e)
    | inr v => k v (grow st [event_of st sh c] [])
    end.
Proof. unfold bind. rewrite invoke_grow. done. Qed.

Lemma push_result_grow (r : OutputRecord) (st : State) :
  push_result r st = (grow st [] [r], inr tt).
Proof. unfold push_result, grow. simpl. by rewrite !app_nil_r. Qed.

Lemma event_of_returned (st : State) (sh : Session) (c : Call) (v : value) :
  outcome (respond (trace st) sh c) = inr v ->
  event_of st sh c = mkEvent sh c true.
Proof. intros Hv. unfold event_of. by rewrite Hv. Qed.

Lemma event_of_threw (st : State) (sh : Session) (c : Call) (e : Error) :
  outcome (respond (trace st) sh c) = inl e ->
  event_of st sh c = mkEvent sh c false.
Proof. intros He. unfold event_of. by rewrite He. Qed.

Lemma act_loop_grow (sh : Session) (todo : list string) (acc : list value)
  (st : State) :
  exists evs r,
    act_loop sh todo acc st = (grow st evs [], r) /\
    Forall (fun ev => session ev = sh /\ lifecycle (call ev) = false) evs.
Proof.
  revert acc st. induction todo as [|i rest IH]; intros acc st.
  - exists [], (inr acc). simpl. by rewrite grow_nil.
  - cbn [act_loop]. rewrite bind_invoke_grow.
    destruct (outcome _) as [e|v].
    { do 2 eexists. split; [reflexivity|]. by repeat constructor. }
    match goal with |- context [act_loop sh rest ?a ?s] =>
      destruct (IH a s) as (evs & r & -> & Hevs) end.
    rewrite grow_grow. do 2 eexists. split; [reflexivity|].
    by repeat constructor.
Qed.

Lemma messages_key (it : Item) (buffer : list LogLine)
  (fields : list (string * value)) :
  assoc "messages" fields = None ->
  get_opt
    (Obj (fields ++
          (if logMessages it
           then [("messages", Arr (sanitizeMessages buffer))] else [])))
    "messages" = messages_entry it buffer.
Proof.
  intros Hf. unfold messages_entry. cbn [get_opt].
  induction fields as [|[k v] fields IH].
  - by destruct (logMessages it).
  - rewrite <- app_comm_cons. cbn [assoc] in *.
    destruct (String.eqb "messages" k); [done|]. by apply IH.
Qed.

Ltac body_calls :=
  repeat first [ assumption
               | apply List.Forall_nil
               | apply Forall_cons; split; [split; reflexivity|]
               | apply Forall_app; split; [assumption|] ].

Ltac body_throws :=
  do 3 eexists; split; [rewrite ?grow_grow; reflexivity|];
  split; [body_calls|reflexivity].

Ltac body_returns :=
  cbv beta zeta; rewrite bind_spread, push_result_grow, ?grow_grow;
  do 3 eexists; split; [reflexivity|];
  split; [body_calls|];
  eexists; split; [reflexivity|]; split; [reflexivity|];
  split; [reflexivity|]; cbn [json];
  rewrite messages_key by reflexivity;
  rewrite ?app_nil_r; reflexivity.

Lemma do_observe_effect (sh : Session) (it : Item) (st : State) :
  body_effect sh it (do_observe sh it) st.
Proof.
  unfold body_effect, do_observe. cbv zeta. rewrite bind_invoke_grow.
  destruct (outcome _) as [e|v]; [body_throws|body_returns].
Qed.

Lemma do_extract_effect (sh : Session) (it : Item) (st : State) :
  body_effect sh it (do_extract sh it) st.
Proof.
  unfold body_effect, do_extract. cbv zeta. unfold bind at 1, lift.
  destruct (resolve_schema it) as [e|schema].
  - exists [], [], (inl e). by rewrite grow_nil.
  - rewrite bind_invoke_grow.
    destruct (outcome _) as [e|v]; [body_throws|body_returns].
Qed.

Lemma do_agent_effect (sh : Session) (it : Item) (st : State) :
  body_effect sh it (do_agent sh it) st.
Proof.
  unfold body_effect, do_agent. cbv zeta. rewrite bind_invoke_grow.
  destruct (outcome _) as [e|v0]; [body_throws|]. cbv beta.
  rewrite bind_invoke_grow.
  destruct (outcome _) as [e|agentResult]; [body_throws|]. cbv beta.
  unfold bind at 1, get_messages. unfold bind at 1, lift.
  destruct (simplify_actions agentResult) as [e|actions]; [body_throws|].
  cbv beta zeta. rewrite bind_invoke_grow.
  destruct (outcome _) as [e|url]; [body_throws|body_returns].
Qed.

Lemma do_act_effect (sh : Session) (it : Item) (st : State) :
  body_effect sh it (do_act sh it) st.
Proof.
  unfold body_effect, do_act.
  destruct (act_loop_grow sh (act_instructions (instructions it)) [] st)
    as (evs & r1 & Hst & Hevs).
  unfold bind at 1. rewrite Hst. destruct r1 as [e|out]; [body_throws|].
  rewrite bind_invoke_grow.
  destruct (outcome _) as [e|url]; [body_throws|body_returns].
Qed.

Lemma dispatch_effect (sh : Session) (it : Item) (st : State) :
  body_effect sh it (dispatch sh it) st.
Proof.
  unfold dispatch. cbv zeta.
  destruct (String.eqb _ "act"); [apply do_act_effect|].
  destruct (String.eqb _ "extract"); [apply do_extract_effect|].
  destruct (String.eqb _ "observe"); [apply do_observe_effect|].
  destruct (String.eqb _ "agent"); [apply do_agent_effect|].
  exists [], [],
    (inl (mkError "ApplicationError" ("Unsupported operation: " +:+ operation it))).
  unfold throw. by rewrite grow_nil.
Qed.

(** The [try] block with its [catch]: it always returns, with one record,
    the record of the switch when it returned and the error record of
    what it threw otherwise. *)
Lemma try_catch_effect (sh : Session) (it : Item) (st : State) :
  exists evs rec,
    try_catch (dispatch sh it) (on_error it) st = (grow st evs [rec], inr tt) /\
    Forall (fun ev => session ev = sh /\ lifecycle (call ev) = false) evs /\
    captured sh it st rec /\
    get_opt (json rec) "messages" = messages_entry it (messages (grow st evs [])).
Proof.
  destruct (dispatch_effect sh it st) as (evs & recs & r & Hd & Hevs & Hr).
  unfold try_catch, captured. rewrite Hd. destruct r as [e|[]].
  - subst recs. unfold on_error.
    rewrite bind_spread, push_result_grow, grow_grow, app_nil_r.
    do 2 eexists. split; [reflexivity|]. split; [done|]. split.
    + split; [reflexivity|]. split; [|reflexivity].
      cbn [results grow]. by rewrite app_nil_r.
    + cbn [json]. by rewrite messages_key.
  - destruct Hr as (rec & -> & Herr & Hop & Hmsgs). exists evs, rec.
    split; [done|]. split; [done|]. split; [|done]. done.
Qed.

(** The whole [try] statement: the body, then one call of [close], whose
    error, if it throws, is the outcome. *)
Lemma guarded_effect (sh : Session) (it : Item) (st : State) :
  exists body rec ok r,
    try_catch_finally (dispatch sh it) (on_error it) (invoke sh Close ;; ret tt) st =
      (grow st (body ++ [mkEvent sh Close ok]) [rec], r) /\
    Forall (fun ev => session ev = sh /\ lifecycle (call ev) = false) body /\
    captured sh it st rec /\
    get_opt (json rec) "messages" = messages_entry it (messages (grow st body [])) /\
    (if ok then r = inr tt
     else exists e, r = inl e /\
          outcome (respond (trace st ++ body) sh Close) = inl e).
Proof.
  destruct (try_catch_effect sh it st) as (body & rec & Htc & Hbody & Hcap & Hmsgs).
  unfold try_catch_finally, try_finally. rewrite Htc.
  rewrite bind_invoke_grow, grow_grow.
  destruct (outcome (respond (trace (grow st body [rec])) sh Close))
    as [e|v] eqn:Hclose.
  - rewrite (event_of_threw _ _ _ _ Hclose).
    exists body, rec, false, (inl e).
    split; [done|]. split; [done|]. split; [done|]. split; [done|].
    by exists e.
  - rewrite (event_of_returned _ _ _ _ Hclose).
    exists body, rec, true, (inr tt).
    split; [done|]. split; [done|]. split; [done|]. split; done.
Qed.

(** The three ways the processing of an item can go: opening the session
    throws; the navigation throws; or the [try] statement is reached, one
    record is appended and [close] is called once.  The buffer ends with
    the lines of the calls of the item. *)
Lemma process_item_effect
  (model : ChatModel) (i : nat) (it : Item) (st : State) :
  let sh := mkSession i (options_of model it) in
  exists evs recs r,
    process_item model i it st =
      (mkState (trace st ++ evs) (lines_of (trace st) evs) (results st ++ recs), r) /\
    Forall (fun ev => session ev = sh) evs /\
    ( (exists e, evs = [mkEvent sh Init false] /\ recs = [] /\ r = inl e /\
          outcome (respond (trace st) sh Init) = inl e)
    \/ (exists e, pageUrl it <> "" /\
          evs = [mkEvent sh Init true; mkEvent sh (Goto (pageUrl it)) false] /\
          recs = [] /\ r = inl e /\
          outcome (respond (trace st ++ [mkEvent sh Init true]) sh
                     (Goto (pageUrl it))) = inl e)
    \/ (exists body ok rec,
          evs = opening sh it ++ body ++ [mkEvent sh Close ok] /\
          Forall (fun ev => session ev = sh /\ lifecycle (call ev) = false) body /\
          recs = [rec] /\
          captured sh it
            (mkState (trace st ++ opening sh it)
                     (lines_of (trace st) (opening sh it)) (results st))
            rec /\
          get_opt (json rec) "messages" =
            messages_entry it (lines_of (trace st) (opening sh it ++ body)) /\
          (if ok then r = inr tt
           else exists e, r = inl e /\
                outcome (respond (trace st ++ opening sh it ++ body) sh Close) =
                  inl e)) ).
Proof.
  intros sh. unfold process_item. fold sh.
  unfold bind at 1, new_messages. cbn [fst snd].
  set (st0 := mkState (trace st) [] (results st)).
  assert (Hgrow : forall evs recs,
            grow st0 evs recs =
            mkState (trace st ++ evs) (lines_of (trace st) evs) (results st ++ recs)).
  { intros evs recs. reflexivity. }
  rewrite bind_invoke_grow.
  destruct (outcome (respond (trace st0) sh Init)) as [e|v] eqn:Hinit.
  { rewrite (event_of_threw _ _ _ _ Hinit), Hgrow.
    do 3 eexists. split; [reflexivity|]. split; [by repeat constructor|].
    left. by exists e. }
  rewrite (event_of_returned _ _ _ _ Hinit).
  assert (exists r2 evs2,
    (if String.eqb (pageUrl it) "" then ret tt
     else invoke sh (Goto (pageUrl it));; ret tt)
      (grow st0 [mkEvent sh Init true] []) = (grow st0 evs2 [], r2) /\
    match r2 with
    | inl e => pageUrl it <> "" /\
        evs2 = [mkEvent sh Init true; mkEvent sh (Goto (pageUrl it)) false] /\
        outcome (respond (trace st ++ [mkEvent sh Init true]) sh
                   (Goto (pageUrl it))) = inl e
    | inr _ => evs2 = opening sh it
    end) as (r2 & evs2 & Hnav & Hr2).
  { unfold opening. destruct (String.eqb_spec (pageUrl it) "") as [Hurl|Hurl].
    - exists (inr tt). eexists. split; [reflexivity|]. done.
    - rewrite bind_invoke_grow, grow_grow.
      destruct (outcome (respond (trace (grow st0 [mkEvent sh Init true] [])) sh
                           (Goto (pageUrl it)))) as [e|v2] eqn:Hgoto.
      + rewrite (event_of_threw _ _ _ _ Hgoto).
        exists (inl e). eexists. split; [reflexivity|]. done.
      + rewrite (event_of_returned _ _ _ _ Hgoto).
        exists (inr tt). eexists. split; [reflexivity|]. done. }
  unfold bind at 1. rewrite Hnav. destruct r2 as [e|[]].
  { destruct Hr2 as (Hurl & -> & Hgoto). rewrite Hgrow.
    do 3 eexists. split; [reflexivity|]. split; [by repeat constructor|].
    right; left. by exists e. }
  subst evs2.
  destruct (guarded_effect sh it (grow st0 (opening sh it) []))
    as (body & rec & ok & r & Hg & Hbody & Hcap & Hmsgs & Hr).
  rewrite Hg, grow_grow, Hgrow.
  exists (opening sh it ++ body ++ [mkEvent sh Close ok]), [rec], r.
  split; [reflexivity|]. split.
  { apply Forall_app. split.
    - unfold opening. destruct (String.eqb (pageUrl it) ""); by repeat constructor.
    - apply Forall_app. split; [|by repeat constructor].
      eapply Forall_impl; [exact Hbody|]. by intros ? [? ?]. }
  right; right. exists body, ok, rec.
  split; [done|]. split; [done|]. split; [done|].
  rewrite Hgrow in Hcap. rewrite app_nil_r in Hcap. split; [exact Hcap|].
  split.
  - rewrite Hmsgs, grow_grow. reflexivity.
  - destruct ok; [done|]. destruct Hr as (e & -> & He). exists e. split; [done|].
    cbn [trace grow st0] in He. by rewrite <- app_assoc in He.
Qed.

Lemma opening_settled (sh : Session) (it : Item) :
  forallb settled (opening sh it) = true.
Proof. unfold opening. by destruct (String.eqb (pageUrl it) ""). Qed.

Lemma body_settled (sh : Session) (body : list Event) :
  Forall (fun ev => session ev = sh /\ lifecycle (call ev) = false) body ->
  forallb settled body = true.
Proof.
  intros Hbody. apply forallb_Forall. eapply Forall_impl; [exact Hbody|].
  intros ev [_ Hl]. unfold settled. by rewrite Hl.
Qed.

(** The loop over the items: it ends normally with one record per item,
    each the record of the [try] block of its item, and every lifecycle
    call returned; or it ends with the error of the first lifecycle call
    that throws, which is then the last call made. *)
Lemma for_items_effect
  (model : ChatModel) (items : list Item) (i : nat) (st : State) :
  exists evs msgs recs r,
    for_items model i items st =
      (mkState (trace st ++ evs) msgs (results st ++ recs), r) /\
    Forall (fun ev => (i <= owner (session ev) < i + length items)%nat) evs /\
    match r with
    | inr _ =>
        forallb settled evs = true /\
        length recs = length items /\
        forall j it rec, items !! j = Some it -> recs !! j = Some rec ->
          let sh := mkSession (i + j) (options_of model it) in
          exists before after,
            evs = before ++ opening sh it ++ after /\
            captured sh it
              (mkState (trace st ++ before ++ opening sh it)
                       (lines_of (trace st ++ before) (opening sh it))
                       (results st ++ take j recs))
              rec
    | inl e =>
        exists pre ev,
          evs = pre ++ [ev] /\ forallb settled pre = true /\
          lifecycle (call ev) = true /\ returned ev = false /\
          outcome (respond (trace st ++ pre) (session ev) (call ev)) = inl e /\
          length recs =
            (owner (session ev) - i + (if is_close (call ev) then 1 else 0))%nat
    end.
Proof.
  revert i st. induction items as [|it rest IH]; intros i st.
  - exists [], (messages st), [], (inr tt). simpl. rewrite !app_nil_r.
    destruct st. repeat split; try done.
  - cbn [for_items]. unfold bind at 1.
    destruct (process_item_effect model i it st)
      as (evs1 & recs1 & r1 & Hp & Hown & Hcases).
    rewrite Hp. clear Hp.
    set (sh := mkSession i (options_of model it)) in *.
    assert (Hrange1 : Forall (fun ev => (i <= owner (session ev)
                                         < i + length (it :: rest))%nat) evs1).
    { eapply Forall_impl; [exact Hown|]. intros ev ->. unfold sh. simpl. lia. }
    destruct Hcases as [(e & -> & -> & -> & He)|[(e & Hurl & -> & -> & -> & He)|
      (body & ok & rec & -> & Hbody & -> & Hcap & _ & Hr)]].
    + do 4 eexists. split; [reflexivity|]. split; [exact Hrange1|].
      exists [], (mkEvent sh Init false). rewrite app_nil_r. simpl.
      repeat split; try done. lia.
    + do 4 eexists. split; [reflexivity|]. split; [exact Hrange1|].
      exists [mkEvent sh Init true], (mkEvent sh (Goto (pageUrl it)) false). simpl.
      repeat split; try done. lia.
    + pose proof (body_settled _ _ Hbody) as Hsb.
      pose proof (opening_settled sh it) as Hso.
      destruct ok.
      * subst r1.
        match goal with |- context [for_items model (S i) rest ?s] =>
          destruct (IH (S i) s) as (evs2 & msgs2 & recs2 & r2 & Hf & Hrange & Hr2) end.
        rewrite Hf. cbn [trace results].
        exists ((opening sh it ++ body ++ [mkEvent sh Close true]) ++ evs2),
               msgs2, (rec :: recs2), r2.
        split; [by rewrite <- !app_assoc|]. split.
        { apply Forall_app. split; [exact Hrange1|].
          eapply Forall_impl; [exact Hrange|]. intros ev Hev. simpl in *. lia. }
        destruct r2 as [e|[]].
        -- destruct Hr2 as (pre & ev & -> & Hs & Hl & Hret & He & Hlen).
           exists ((opening sh it ++ body ++ [mkEvent sh Close true]) ++ pre), ev.
           split; [by rewrite <- !app_assoc|]. split.
           { rewrite !forallb_app, Hs, Hso, Hsb. done. }
           split; [done|]. split; [done|]. split.
           { cbn [trace] in He. by rewrite <- app_assoc in He. }
           simpl. rewrite Hlen.
           assert (S i <= owner (session ev))%nat.
           { rewrite Forall_app, Forall_singleton in Hrange.
             destruct Hrange as [_ Hev]. simpl in Hev. lia. }
           lia.
        -- destruct Hr2 as (Hs & Hlen & Hrecs). split.
           { rewrite !forallb_app, Hso, Hsb, Hs. done. }
           split; [simpl; by rewrite Hlen|].
           intros [|j] it' rec' Hit Hrec; simpl in Hit, Hrec.
           ++ injection Hit as <-. injection Hrec as <-.
              rewrite Nat.add_0_r. fold sh. cbv zeta.
              exists [], ((body ++ [mkEvent sh Close true]) ++ evs2).
              split; [by rewrite <- !app_assoc|].
              cbn [take app]. rewrite !app_nil_r. exact Hcap.
           ++ destruct (Hrecs j it' rec' Hit Hrec) as (before & after & -> & Hc).
              cbv zeta in *. cbn [trace results] in Hc.
              replace (i + S j)%nat with (S i + j)%nat by lia.
              exists ((opening sh it ++ body ++ [mkEvent sh Close true]) ++ before),
                     after.
              split; [by rewrite <- !app_assoc|].
              cbn [take]. change (rec :: take j recs2) with ([rec] ++ take j recs2).
              rewrite <- !app_assoc in Hc. rewrite <- !app_assoc.
              rewrite !app_assoc in Hc. rewrite !app_assoc. exact Hc.
      * destruct Hr as (e & -> & He).
        do 4 eexists. split; [reflexivity|]. split; [exact Hrange1|].
        exists (opening sh it ++ body), (mkEvent sh Close false).
        split; [by rewrite <- app_assoc|].
        split; [by rewrite forallb_app, Hso, Hsb|].
        split; [done|]. split; [done|]. split; [exact He|]. simpl. lia.
Qed.

Lemma run_effect (model : ChatModel) (items : list Item) :
  isChatInstance model = true ->
  exists evs msgs recs r,
    for_items model 0 items initial = (mkState evs msgs recs, r) /\
    run model items =
      (mkState evs msgs recs,
       match r with inr _ => inr [recs] | inl e => inl e end).
Proof.
  intros Hchat. unfold run, execute, assert. rewrite Hchat.
  unfold bind at 1. cbn [ret].
  destruct (for_items model 0 items initial) as [[evs msgs recs] r] eqn:Hf.
  exists evs, msgs, recs, r. split; [done|].
  unfold bind at 1. rewrite Hf. by destruct r.
Qed.

Lemma run_not_chat (model : ChatModel) (items : list Item) :
  isChatInstance model = false -> trace (fst (run model items)) = [].
Proof. intros Hchat. unfold run, execute, assert. by rewrite Hchat. Qed.

End Calls.
Section Driver.
Context `{Builtins} `{Workflow} `{SchemaLibs} `{Engine}.

(** X2.  Closing is attempted once for an item when opening its session
    and the navigation returned, and not at all when one of them threw. *)
Lemma close_attempts_of_item
  (model : ChatModel) (i : nat) (it : Item) (st : State) :
  exists evs,
    trace (fst (process_item model i it st)) = trace st ++ evs /\
    length (filter (fun ev => is_close (call ev) = true) evs) =
      if forallb settled (filter (fun ev => is_close (call ev) = false) evs)
      then 1%nat else 0%nat.
Proof.
  destruct (process_item_effect model i it st)
    as (evs & recs & r & Hp & _ & Hcases).
  rewrite Hp. exists evs. split; [done|].
  set (sh := mkSession i (options_of model it)) in *.
  destruct Hcases as [(e & -> & _)|[(e & _ & -> & _)|
    (body & ok & rec & -> & Hbody & _)]]; [done..|].
  unfold opening.
  assert (Hb : Forall (fun ev => is_close (call ev) = false) body).
  { eapply Forall_impl; [exact Hbody|]. intros ev [_ Hl]. by destruct (call ev). }
  assert (Hb1 : filter (fun ev => is_close (call ev) = true) body = []).
  { apply filter_none. eapply Forall_impl; [exact Hb|]. intros ev ->. done. }
  assert (Hb2 : filter (fun ev => is_close (call ev) = false) body = body).
  { by apply filter_all. }
  pose proof (body_settled _ _ Hbody) as Hsb.
  rewrite !filter_app, Hb1, Hb2, !length_app, !forallb_app, Hsb.
  destruct (String.eqb (pageUrl it) ""); reflexivity.
Qed.


(** C3, as the code has it.  When closing a session throws, the record
    of that item has already been appended to the results (there is one
    record for each item up to this one), but the error of [close]
    becomes the outcome of the run: the call is the last one made, no
    later item is processed and no output is returned. *)
Theorem close_failure_ends_the_run
  (model : ChatModel) (items : list Item) (n : nat) (ev : Event) :
  trace (fst (run model items)) !! n = Some ev ->
  call ev = Close -> returned ev = false ->
  exists pre e,
    trace (fst (run model items)) = pre ++ [ev] /\
    outcome (respond pre (session ev) Close) = inl e /\
    snd (run model items) = inl e /\
    length (results (fst (run model items))) = S (owner (session ev)).
Proof.
  destruct (isChatInstance model) eqn:Hchat;
    [|rewrite (run_not_chat _ _ Hchat); intros Hnil; by rewrite lookup_nil in Hnil].
  destruct (run_effect model items Hchat) as (evs & msgs & recs & r & Hf & ->).
  destruct (for_items_effect model items 0 initial)
    as (evs' & msgs' & recs' & r' & Hf' & _ & Hr).
  rewrite Hf in Hf'. injection Hf' as -> -> -> <-. cbn [fst snd trace results].
  intros Hin%list_elem_of_lookup_2 Hcall Hev. destruct r as [e|[]].
  - destruct Hr as (pre & ev0 & -> & Hs & Hl & Hret & He & Hlen).
    apply elem_of_app in Hin as [Hin|Hin].
    + apply forallb_Forall in Hs. eapply Forall_forall in Hs; [|exact Hin].
      unfold settled in Hs. rewrite Hcall, Hev in Hs. done.
    + apply list_elem_of_singleton in Hin as ->. exists pre, e.
      rewrite Hcall in He, Hlen. simpl in Hlen. repeat split; try done. lia.
  - destruct Hr as [Hs _]. apply forallb_Forall in Hs.
    eapply Forall_forall in Hs; [|exact Hin].
    unfold settled in Hs. rewrite Hcall, Hev in Hs. done.
Qed.

(** C4, as the code has it.  The extract and observe operations pass to
    the session the first line of the instructions block, trimmed: the
    text [line] before the first line feed, whether or not it is blank.
    Observe makes the one call [observe (trim line)]; extract makes the
    one call [extract (trim line) schema] when the schema resolves, and
    no call when it does not. *)
Theorem extract_observe_pass_first_line
  (sh : Session) (it : Item) (st : State) :
  operation it = "observe" \/ operation it = "extract" ->
  exists line rest,
    instructions it = line +:+ rest /\
    has_char LF line = false /\
    (rest = "" \/ exists r, rest = nl +:+ r) /\
    exists evs lines recs r,
      dispatch sh it st = (extend st evs lines recs, r) /\
      (operation it = "observe" -> call <$> evs = [Observe (trim line)]) /\
      (operation it = "extract" ->
         match resolve_schema it with
         | inr schema => call <$> evs = [Extract (trim line) schema]
         | inl _ => evs = []
         end).
Proof.
  intros Hop.
  destruct (first_line_instruction_spec (instructions it))
    as (line & rest & Hraw & Hline & Hrest & Hfirst).
  exists line, rest. do 3 (split; [done|]).
  destruct Hop as [Hop|Hop]; rewrite (dispatch_op sh it _ Hop);
    cbn [String.eqb Ascii.eqb Bool.eqb]; rewrite Hop.
  - unfold do_observe. rewrite bind_invoke. cbv zeta. rewrite Hfirst.
    destruct (outcome _) as [e|v].
    + do 4 eexists. split; [reflexivity|]. split; [done|]. intros [=].
    + rewrite bind_spread, push_result_eq, extend_extend.
      do 4 eexists. split; [reflexivity|]. split; [done|]. intros [=].
  - unfold do_extract. cbv zeta. unfold bind at 1, lift. rewrite Hfirst.
    destruct (resolve_schema it) as [e|schema].
    + exists [], [], [], (inl e). rewrite extend_nil. split; [done|].
      split; [intros [=]|done].
    + rewrite bind_invoke. cbv zeta. destruct (outcome _) as [e|v].
      * do 4 eexists. split; [reflexivity|]. split; [intros [=]|done].
      * rewrite bind_spread, push_result_eq, extend_extend.
        do 4 eexists. split; [reflexivity|]. split; [intros [=]|done].
Qed.

(** C5.  The act operation takes the lines of the block, split on line
    feeds, trimmed, the empty ones dropped ([instrs]).  Its calls on the
    session are [act] on these instructions, in their order ([acts]),
    stopping at the first one that throws; when all return they are
    followed by the one call reading the page location, and the record
    holds the pairs of each instruction with the value its call returned,
    in the same order.  The operation throws only what a call threw: the
    calls before it returned, it is the last call made, and it is either
    the [act] call of an instruction or, after every instruction was
    executed, the call reading the page location.  The block
    ["Click A\n\nType B\n"] gives the two instructions [Click A] and
    [Type B]. *)
Theorem act_runs_instructions_in_order
  (sh : Session) (it : Item) (st : State) :
  operation it = "act" ->
  let instrs := act_instructions (instructions it) in
  (exists acts rest lines recs r,
     dispatch sh it st = (extend st (acts ++ rest) lines recs, r) /\
     call <$> acts = Act <$> take (length acts) instrs /\
     match r with
     | inr _ =>
         length acts = length instrs /\ call <$> rest = [Url] /\
         Forall (fun ev => returned ev = true) (acts ++ rest) /\
         exists vals url spread,
           length vals = length instrs /\
           (forall j i v, instrs !! j = Some i -> vals !! j = Some v ->
              outcome (respond (trace st ++ take j acts) sh (Act i)) = inr v) /\
           outcome (respond (trace st ++ acts) sh Url) = inr url /\
           recs = [mkRecord None
                     (Obj ([("operation", Str "act");
                            ("results",
                             Arr (zip_with
                                    (fun i v => Obj [("instruction", Str i); ("result", v)])
                                    instrs vals));
                            ("currentUrl", url)] ++ spread))]
     | inl e =>
         recs = [] /\
         exists before failing,
           acts ++ rest = before ++ [failing] /\
           Forall (fun ev => returned ev = true) before /\
           returned failing = false /\
           outcome (respond (trace st ++ before) sh (call failing)) = inl e /\
           (rest = [] \/
            (rest = [failing] /\ call failing = Url /\
             length acts = length instrs))
     end) /\
  instrs = filter (fun s => 0 < strlen s) (map trim (split LF (instructions it))) /\
  act_instructions ("Click A" +:+ nl +:+ nl +:+ "Type B" +:+ nl) = ["Click A"; "Type B"].
Proof.
  intros Hop instrs. split; [|split; [reflexivity|by vm_compute]].
  rewrite (dispatch_op sh it _ Hop). cbn [String.eqb Ascii.eqb Bool.eqb].
  unfold do_act. fold instrs. rewrite Hop.
  destruct (act_loop_spec sh instrs [] st)
    as (evs & lines & r1 & Hst & Hsess & Hlines & Hcalls & Hres).
  unfold bind at 1. rewrite Hst. destruct r1 as [e|out].
  - destruct Hres as (before & failing & -> & Hbefore & Hfail & He).
    exists (before ++ [failing]), [], lines, [], (inl e). rewrite app_nil_r.
    split; [done|]. split; [done|]. split; [done|].
    exists before, failing. repeat split; try done. by left.
  - destruct Hres as (Hlen & Hret & vals & Hvlen & Hvals & ->).
    rewrite bind_invoke. cbv zeta.
    destruct (outcome (respond (trace (extend st evs lines [])) sh Url))
      as [e|url] eqn:Hurl.
    + rewrite extend_extend. do 5 eexists. split; [reflexivity|]. split; [done|].
      split; [done|]. exists evs, (event_of (extend st evs lines []) sh Url).
      split; [done|]. split; [done|]. unfold event_of. rewrite Hurl.
      split; [done|]. split; [exact Hurl|]. right. done.
    + rewrite bind_spread, push_result_eq, !extend_extend.
      do 5 eexists. split; [rewrite app_nil_r; reflexivity|]. split; [done|].
      split; [done|]. split; [done|]. split.
      { apply Forall_app. split; [done|]. unfold event_of. rewrite Hurl.
        by repeat constructor. }
      exists vals. do 2 eexists.
      split; [done|]. split; [exact Hvals|]. split; [exact Hurl|]. reflexivity.
Qed.

(** C9, as the code has it.  For the example source of an extract item
    the code makes no test of the shape of the parsed example: resolving
    the contract is parsing the example text, generating the code of a
    contract from the parsed value and evaluating that code, in this
    order and nothing else.  An error of any of the three steps is the
    error of the resolution, and the operation then throws it without
    calling the engine; and when the three steps succeed, the contract
    [t] of the last one, of an object or not, is what resolution returns
    and what extraction is called with. *)
Theorem example_source_has_no_object_check
  (sh : Session) (it : Item) (st : State) :
  operation it = "extract" -> schemaSource it = "example" ->
  (forall e, JSON_parse (exampleJson it) = inl e -> resolve_schema it = inl e) /\
  (forall v e,
     JSON_parse (exampleJson it) = inr v ->
     jsonToZod v = inl e -> resolve_schema it = inl e) /\
  (forall v code e,
     JSON_parse (exampleJson it) = inr v ->
     jsonToZod v = inr code ->
     new_Function_z (code +:+ "return schema;") = inl e ->
     resolve_schema it = inl e) /\
  (forall e, resolve_schema it = inl e -> dispatch sh it st = (st, inl e)) /\
  (forall v code t,
     JSON_parse (exampleJson it) = inr v ->
     jsonToZod v = inr code ->
     new_Function_z (code +:+ "return schema;") = inr t ->
     resolve_schema it = inr t /\
     exists evs lines recs r,
       dispatch sh it st = (extend st evs lines recs, r) /\
       call <$> evs = [Extract (first_line_instruction (instructions it)) t]).
Proof.
  intros Hop Hsrc.
  assert (Hres : resolve_schema it =
            match JSON_parse (exampleJson it) with
            | inl e => inl e
            | inr v =>
                match jsonToZod v with
                | inl e => inl e
                | inr code => new_Function_z (code +:+ "return schema;")
                end
            end).
  { unfold resolve_schema. rewrite Hsrc. reflexivity. }
  split; [intros e He; by rewrite Hres, He|].
  split; [intros v e Hv He; by rewrite Hres, Hv, He|].
  split; [intros v code e Hv Hcode He; by rewrite Hres, Hv, Hcode|].
  split.
  - intros e He. rewrite (dispatch_op sh it _ Hop).
    cbn [String.eqb Ascii.eqb Bool.eqb].
    unfold do_extract. cbv zeta. unfold bind at 1, lift. by rewrite He.
  - intros v code t Hv Hcode Ht.
    assert (Hr : resolve_schema it = inr t) by (by rewrite Hres, Hv, Hcode).
    split; [done|].
    rewrite (dispatch_op sh it _ Hop). cbn [String.eqb Ascii.eqb Bool.eqb].
    unfold do_extract. cbv zeta. unfold bind at 1, lift. rewrite Hr.
    rewrite bind_invoke. cbv zeta. destruct (outcome _) as [e|res].
    + do 4 eexists. split; reflexivity.
    + rewrite bind_spread, push_result_eq, extend_extend.
      do 4 eexists. split; reflexivity.
Qed.

Lemma do_agent_usage (sh : Session) (it : Item) (st st' : State)
  (rec : OutputRecord) :
  logger (options sh) = None -> messages st = [] ->
  do_agent sh it st = (st', inr tt) ->
  results st' = results st ++ [rec] ->
  get_opt (json rec) "usage" = Null.
Proof.
  intros Hn Hm. unfold do_agent. cbv zeta. rewrite bind_invoke. cbv zeta.
  destruct (outcome _) as [e|v0]; [intros [=]|].
  rewrite bind_invoke. cbv zeta.
  destruct (outcome _) as [e|agentResult]; [intros [=]|].
  unfold bind at 1, get_messages. unfold bind at 1, lift.
  destruct (simplify_actions agentResult) as [e|actions]; [intros [=]|].
  rewrite bind_invoke. cbv zeta.
  destruct (outcome _) as [e|url]; [intros [=]|].
  rewrite bind_spread, push_result_eq, !extend_extend.
  intros [= <-]. cbn [results extend]. intros Hrec. apply app_inv_head in Hrec.
  injection Hrec as <-. cbn [messages extend]. rewrite Hm, !(received_None _ _ Hn).
  reflexivity.
Qed.

(** C10.  For an item processed with the log-messages option off, the
    options given to the engine hold no logger; the buffer of captured
    messages, which only ever grows within an item, is empty when the
    item ends; and when the operation is [agent] the record it produces
    without error has [usage] equal to [null], whatever the engine did
    and logged. *)
Theorem no_log_option_no_usage
  (model : ChatModel) (i : nat) (it : Item) (st : State) :
  logMessages it = false ->
  logger (options_of model it) = None /\
  messages (fst (process_item model i it st)) = [] /\
  exists recs,
    results (fst (process_item model i it st)) = results st ++ recs /\
    (operation it = "agent" ->
     forall rec, rec ∈ recs -> error rec = None ->
       get_opt (json rec) "usage" = Null).
Proof.
  intros Hl.
  assert (Hno : logger (options_of model it) = None) by (simpl; by rewrite Hl).
  split; [done|].
  destruct (process_item_effect model i it st)
    as (evs & recs & r & Hp & Hown & Hcases).
  assert (Hsilent : forall history evs',
            Forall (fun ev => session ev = mkSession i (options_of model it)) evs' ->
            lines_of history evs' = []).
  { intros history evs' Hevs. apply lines_of_silent.
    eapply Forall_impl; [exact Hevs|]. by intros ev ->. }
  rewrite Hp. cbn [fst messages results]. split; [by apply Hsilent|].
  exists recs. split; [done|]. intros Hop rec Hin Herr.
  destruct Hcases as [(e & _ & -> & _)|[(e & _ & _ & -> & _)|
    (body & ok & rec' & -> & _ & -> & Hcap & _)]];
    [by apply elem_of_nil in Hin..|].
  apply list_elem_of_singleton in Hin as ->.
  destruct Hcap as [_ Hcap].
  rewrite (dispatch_op _ it _ Hop) in Hcap.
  cbn [String.eqb Ascii.eqb Bool.eqb] in Hcap.
  match type of Hcap with context [do_agent ?sh it ?s] =>
    destruct (do_agent sh it s) as [st' [e|[]]] eqn:Hd end.
  - destruct Hcap as [_ ->]. done.
  - destruct Hcap as [Hrec _].
    eapply (do_agent_usage (mkSession i (options_of model it)));
      [exact Hno| |exact Hd|exact Hrec].
    cbn [messages]. apply Hsilent.
    apply Forall_app in Hown as [Hown _]. exact Hown.
Qed.

End Driver.

(** ** The properties on concrete runs *)

Section OnReference.
Import Reference Examples Runs.

Example trim_removes_outer_white_space :
  trim ("  Click A" +:+ String "009" "" +:+ nl) = "Click A".
Proof. by vm_compute. Qed.

Example split_keeps_empty_lines :
  split LF act_block = ["Click A"; ""; "Type B"; ""].
Proof. by vm_compute. Qed.

Example provider_of_google_family :
  provider_of (mkChatModel ["langchain"; "chat_models"; "google_genai"]
                 "gemini-2.0-flash" "key") = "google".
Proof. by vm_compute. Qed.

Example provider_of_deepseek_model :
  provider_of (mkChatModel ["langchain"; "chat_models"; "openai"]
                 "deepseek-chat" "key") = "deepseek".
Proof. by vm_compute. Qed.

Example sanitize_drops_screenshot_line :
  sanitizeMessages [snake_usage; screenshot_line; action_line] =
    [Obj [("category", Str "aisdk"); ("message", Str "response"); ("level", Num 1)];
     Obj [("category", Str "action"); ("message", Str "clicked"); ("level", Num 1)]].
Proof. by vm_compute. Qed.

Example usage_of_empty_log : extractUsageFromMessages [] = Null.
Proof. reflexivity. Qed.

Example usage_of_malformed_only : extractUsageFromMessages [malformed_usage] = Null.
Proof. by vm_compute. Qed.

Lemma extractUsage_sums_usage_messages_witness :
  forallb well_typed usage_log = true /\
  extractUsageFromMessages usage_log =
    Obj [("prompt_tokens", Num 30); ("completion_tokens", Num 12);
         ("total_tokens", Num 42)].
Proof.
  assert (Hw : forallb well_typed usage_log = true) by (vm_compute; reflexivity).
  split; [exact Hw|].
  rewrite (proj1 (extractUsage_sums_usage_messages usage_log Hw)).
  vm_compute. reflexivity.
Defined.

(** C6 fails on a usage payload whose counter is text: both messages
    yield a usage object, the prompt counters are [10] and ['7'], and the
    reported prompt counter is the text [107], not a sum. *)
Lemma string_counter_is_concatenated :
  omap usage_of [snake_usage; text_counter_usage] =
    [Obj [("prompt_tokens", Num 10); ("completion_tokens", Num 5);
          ("total_tokens", Num 15)];
     Obj [("prompt_tokens", Str "7"); ("total_tokens", Num 7)]] /\
  extractUsageFromMessages [snake_usage; text_counter_usage] =
    Obj [("prompt_tokens", Str "107"); ("completion_tokens", Num 5);
         ("total_tokens", Num 22)] /\
  get_opt (extractUsageFromMessages [snake_usage; text_counter_usage])
    "prompt_tokens" <> Num 17.
Proof.
  assert (Hu : extractUsageFromMessages [snake_usage; text_counter_usage] =
    Obj [("prompt_tokens", Str "107"); ("completion_tokens", Num 5);
         ("total_tokens", Num 22)]) by (by vm_compute).
  split; [by vm_compute|]. split; [exact Hu|]. by rewrite Hu.
Qed.

(** Counters are added as numbers of the host: past 2^53 a sum is
    rounded, and the order of the messages matters. *)
Example large_counters_are_rounded :
  get_opt (extractUsageFromMessages [large_usage; unit_usage; unit_usage])
    "total_tokens" = Num (2 ^ 53) /\
  get_opt (extractUsageFromMessages [unit_usage; unit_usage; large_usage])
    "total_tokens" = Num (2 ^ 53 + 2).
Proof. by vm_compute. Qed.

Lemma fieldsToZodSchema_contract_witness :
  NoDup (map fieldName three_fields) /\
  ("__proto__" ∉ map fieldName three_fields) /\
  exists shape : list (string * ZodType),
    fieldsToZodSchema three_fields = ZObject shape Strip /\
    map fst shape ≡ₚ map fieldName three_fields /\
    assoc "title" shape = Some ZString /\
    assoc "tags" shape = Some (ZOptional (ZArray ZAny)) /\
    assoc "published" shape = Some ZAny.
Proof.
  assert (Hnd : NoDup (map fieldName three_fields)).
  { apply (bool_decide_unpack _). vm_compute. exact I. }
  assert (Hnp : "__proto__" ∉ map fieldName three_fields).
  { apply (bool_decide_unpack _). vm_compute. exact I. }
  split; [exact Hnd|]. split; [exact Hnp|].
  destruct (fieldsToZodSchema_contract three_fields Hnd Hnp)
    as (shape & Hs & Hdom & Hfields & _).
  exists shape. split; [exact Hs|]. split; [exact Hdom|].
  split; [|split].
  - apply (Hfields (mkField "title" "string" false)). apply list_elem_of_here.
  - apply (Hfields (mkField "tags" "array" true)).
    apply list_elem_of_further, list_elem_of_here.
  - apply (Hfields (mkField "published" "date" false)).
    do 2 apply list_elem_of_further. apply list_elem_of_here.
Defined.

(** C8 fails on a descriptor named [__proto__]: the names are unique and
    not empty, and the contract has the one property [title]; the
    assignment to [__proto__] adds no property. *)
Lemma proto_field_is_no_property :
  NoDup (map fieldName proto_fields) /\
  Forall (fun name => name <> "") (map fieldName proto_fields) /\
  fieldsToZodSchema proto_fields = ZObject [("title", ZString)] Strip /\
  ~ (exists shape unknownKeys,
       fieldsToZodSchema proto_fields = ZObject shape unknownKeys /\
       map fst shape ≡ₚ map fieldName proto_fields).
Proof.
  split; [apply (bool_decide_unpack _); vm_compute; exact I|].
  split; [by repeat constructor|].
  split; [reflexivity|].
  intros (shape & unknownKeys & Hs & Hperm).
  injection Hs as <- _. apply Permutation_length in Hperm. discriminate Hperm.
Qed.


Example dispatch_error_is_one_record :
  error <$> results (fst act_failure) =
    [None;
     Some (mkError "NodeOperationError"
             "Error executing Stagehand operation: the engine failed");
     None] /\
  (fun rec => get_opt (json rec) "operation") <$> results (fst act_failure) =
    [Str "act"; Str "act"; Str "act"] /\
  (fun rec => get_opt (json rec) "currentUrl") <$> results (fst act_failure) =
    [Str "https://example.com/"; Undefined; Str "https://example.com/"].
Proof. by vm_compute. Qed.


(** C2.  An item with a page URL whose navigation throws: the session
    was opened ([init] returned), the run ends with the error of [goto],
    and [close] is never called on the session. *)
Theorem navigation_failure_skips_close :
  snd navigation_failure = inl (mkError "Error" "the engine failed") /\
  call <$> trace (fst navigation_failure) = [Init; Goto "https://example.com"] /\
  returned <$> trace (fst navigation_failure) = [true; false] /\
  filter (fun ev => is_close (call ev) = true) (trace (fst navigation_failure)) = [].
Proof. vm_compute. repeat split; reflexivity. Qed.

(** C3 fails when [close] throws: of two items, the first one's [close]
    throws after its record was appended.  The run returns the error of
    [close] instead of the record, and the second item is not processed. *)
Lemma close_failure_discards_the_output :
  length two_acts = 2%nat /\
  snd close_failure = inl (mkError "Error" "the engine failed") /\
  ~ (exists rs, snd close_failure = inr [rs]) /\
  call <$> trace (fst close_failure) = [Init; Act "Click A"; Url; Close] /\
  (fun ev => owner (session ev)) <$> trace (fst close_failure) = [0; 0; 0; 0]%nat /\
  error <$> results (fst close_failure) = [None].
Proof.
  assert (Hout : snd close_failure = inl (mkError "Error" "the engine failed"))
    by (by vm_compute).
  split; [reflexivity|]. split; [exact Hout|]. split.
  - intros (rs & Hrs). rewrite Hout in Hrs. discriminate.
  - vm_compute. repeat split; reflexivity.
Qed.

Lemma close_failure_ends_the_run_witness :
  trace (fst close_failure) !! 3%nat =
    Some (mkEvent (session_of 0 (item "act" "Click A" "" false)) Close false) /\
  exists pre e,
    trace (fst close_failure) =
      pre ++ [mkEvent (session_of 0 (item "act" "Click A" "" false)) Close false] /\
    outcome (@respond first_close_fails pre
               (session_of 0 (item "act" "Click A" "" false)) Close) = inl e /\
    snd close_failure = inl e /\
    length (results (fst close_failure)) = 1%nat.
Proof.
  split; [by vm_compute|].
  apply (@close_failure_ends_the_run builtins workflow libs first_close_fails
           chat_model two_acts 3
           (mkEvent (session_of 0 (item "act" "Click A" "" false)) Close false));
    by vm_compute.
Defined.

(** C4 fails on a block that begins with a blank line: the first line
    that is not empty is [Click A], and observe and extract are called
    with the empty instruction. *)
Lemma blank_first_line_gives_empty_instruction :
  first_nonempty_line blank_line_first = Some "Click A" /\
  call <$> trace (fst observe_blank_first) = [Init; Observe ""; Close] /\
  call <$> trace (fst extract_blank_first) =
    [Init; Extract "" (ZObject [] Strip); Close] /\
  Observe "Click A" ∉ call <$> trace (fst observe_blank_first).
Proof.
  assert (Hobs : call <$> trace (fst observe_blank_first) =
                   [Init; Observe ""; Close]) by (by vm_compute).
  split; [by vm_compute|]. split; [exact Hobs|]. split; [by vm_compute|].
  rewrite Hobs. intros Hin.
  repeat (apply elem_of_cons in Hin as [Heq|Hin]; [discriminate Heq|]).
  by apply elem_of_nil in Hin.
Qed.

Lemma extract_observe_pass_first_line_witness :
  (operation (item "observe" blank_line_first "" false) = "observe" \/
   operation (item "observe" blank_line_first "" false) = "extract") /\
  exists line rest,
    blank_line_first = line +:+ rest /\
    has_char LF line = false /\
    (rest = "" \/ exists r, rest = nl +:+ r) /\
    exists evs lines recs r,
      @dispatch builtins libs never_fails
        (session_of 0 (item "observe" blank_line_first "" false))
        (item "observe" blank_line_first "" false) initial =
        (extend initial evs lines recs, r) /\
      ("observe" = "observe" -> call <$> evs = [Observe (trim line)]) /\
      ("observe" = "extract" ->
         match resolve_schema (item "observe" blank_line_first "" false) with
         | inr schema => call <$> evs = [Extract (trim line) schema]
         | inl _ => evs = []
         end).
Proof.
  split; [left; reflexivity|].
  apply (@extract_observe_pass_first_line builtins libs never_fails
           (session_of 0 (item "observe" blank_line_first "" false))
           (item "observe" blank_line_first "" false) initial).
  left. reflexivity.
Defined.

Lemma act_runs_instructions_in_order_witness :
  operation (item "act" act_block "" false) = "act" /\
  exists acts rest lines recs,
    @dispatch builtins libs never_fails (session_of 0 (item "act" act_block "" false))
      (item "act" act_block "" false) initial =
      (extend initial (acts ++ rest) lines recs, inr tt) /\
    call <$> acts = [Act "Click A"; Act "Type B"] /\
    call <$> rest = [Url] /\
    Forall (fun ev => returned ev = true) (acts ++ rest).
Proof.
  split; [reflexivity|].
  destruct (@act_runs_instructions_in_order builtins libs never_fails
              (session_of 0 (item "act" act_block "" false))
              (item "act" act_block "" false) initial eq_refl)
    as [(acts & rest & lines & recs & r & Hd & Hcalls & Hr) _].
  destruct r as [e|[]].
  - exfalso. vm_compute in Hd. discriminate Hd.
  - destruct Hr as (Hlen & Hrest & Hret & _).
    exists acts, rest, lines, recs. split; [exact Hd|].
    split; [|split; [exact Hrest|exact Hret]].
    rewrite Hcalls, Hlen. reflexivity.
Defined.

Example act_block_calls :
  call <$> trace (fst (@run builtins workflow libs never_fails chat_model
                         [item "act" act_block "" false])) =
    [Init; Act "Click A"; Act "Type B"; Url; Close].
Proof. by vm_compute. Qed.

(** C9 fails on an example that is a JSON string: the source resolves
    to the string contract, which is not an object contract, extraction
    is called with it, and the record of the item carries no error. *)
Lemma string_example_resolves_to_string_contract :
  JSON_parse (exampleJson string_example) = inr (Str "hello") /\
  resolve_schema string_example = inr ZString /\
  ~ (exists e, resolve_schema string_example = inl e) /\
  is_object ZString = false /\
  call <$> trace (fst extract_string_example) =
    [Init; Extract "Get the title" ZString; Close] /\
  error <$> results (fst extract_string_example) = [None].
Proof.
  assert (Hres : resolve_schema string_example = inr ZString) by (by vm_compute).
  split; [by vm_compute|]. split; [exact Hres|]. split.
  - intros (e & He). rewrite Hres in He. discriminate.
  - vm_compute. repeat split; reflexivity.
Qed.

Lemma example_source_has_no_object_check_witness :
  operation string_example = "extract" /\
  schemaSource string_example = "example" /\
  resolve_schema string_example = inr ZString /\
  exists evs lines recs r,
    @dispatch builtins libs never_fails (session_of 0 string_example)
      string_example initial = (extend initial evs lines recs, r) /\
    call <$> evs =
      [Extract (first_line_instruction (instructions string_example)) ZString].
Proof.
  split; [reflexivity|]. split; [reflexivity|].
  apply (proj2 (proj2 (proj2 (proj2
           (@example_source_has_no_object_check builtins libs never_fails
              (session_of 0 string_example) string_example initial
              eq_refl eq_refl))))
           (Str "hello") ("const schema = z.string();" +:+ nl) ZString);
    by vm_compute.
Defined.

Lemma no_log_option_no_usage_witness :
  logMessages (item "agent" "Find the price" "" false) = false /\
  messages (fst (@process_item builtins workflow libs talkative chat_model 0
                   (item "agent" "Find the price" "" false) initial)) = [] /\
  exists recs,
    results (fst (@process_item builtins workflow libs talkative chat_model 0
                    (item "agent" "Find the price" "" false) initial)) =
      results initial ++ recs /\
    ("agent" = "agent" ->
     forall rec, rec ∈ recs -> error rec = None ->
       get_opt (json rec) "usage" = Null).
Proof.
  split; [reflexivity|].
  apply (@no_log_option_no_usage builtins workflow libs talkative chat_model 0
           (item "agent" "Find the price" "" false) initial eq_refl).
Defined.

(** The same agent run with and without the log-messages option: the
    engine logs the usage of two model calls in both. *)
Example agent_usage_depends_on_log_option :
  (fun rec => get_opt (json rec) "usage") <$> results (fst agent_without_log) =
    [Null] /\
  (fun rec => get_opt (json rec) "usage") <$> results (fst agent_with_log) =
    [Obj [("prompt_tokens", Num 30); ("completion_tokens", Num 12);
          ("total_tokens", Num 42)]].
Proof. vm_compute. split; reflexivity. Qed.

End OnReference.

(** * Further properties *)

(** ** Trimmed lines *)

Lemma string_app_cons (c : ascii) (s t : string) :
  String c s +:+ t = String c (s +:+ t).
Proof. reflexivity. Qed.

Lemma string_app_nil_l (s : string) : "" +:+ s = s.
Proof. reflexivity. Qed.

Lemma string_app_nil_r (s : string) : s +:+ "" = s.
Proof. induction s as [|c s IH]; [done|]. by rewrite string_app_cons, IH. Qed.

Lemma string_app_assoc (a b c : string) : (a +:+ b) +:+ c = a +:+ (b +:+ c).
Proof. induction a as [|x a IH]; [done|]. by rewrite !string_app_cons, IH. Qed.

Lemma string_rev_app_spec (a b : string) : String.rev_app a b = String.rev a +:+ b.
Proof.
  unfold String.rev. revert b. induction a as [|c a IH]; intros b; cbn [String.rev_app]; [done|].
  rewrite IH, (IH (String c "")), string_app_assoc. done.
Qed.

Lemma string_rev_cons (c : ascii) (s : string) :
  String.rev (String c s) = String.rev s +:+ String c "".
Proof. unfold String.rev at 1. simpl. by rewrite string_rev_app_spec. Qed.

Lemma string_rev_app (a b : string) :
  String.rev (a +:+ b) = String.rev b +:+ String.rev a.
Proof.
  induction a as [|c a IH].
  - by rewrite string_app_nil_l, string_app_nil_r.
  - by rewrite string_app_cons, !string_rev_cons, IH, string_app_assoc.
Qed.

Lemma string_rev_involutive (s : string) : String.rev (String.rev s) = s.
Proof.
  induction s as [|c s IH]; [done|]. by rewrite string_rev_cons, string_rev_app, IH.
Qed.

Lemma trimStart_starts (s : string) :
  starts_with_whitespace (trimStart s) = false.
Proof.
  induction s as [|c s IH]; simpl; [done|].
  destruct (is_whitespace c) eqn:Hc; [done|]. simpl. done.
Qed.

Lemma trimStart_fixed (s : string) :
  starts_with_whitespace s = false -> trimStart s = s.
Proof. destruct s as [|c s]; simpl; [done|]. by intros ->. Qed.

Lemma trimStart_snoc (s : string) (c : ascii) :
  is_whitespace c = false ->
  exists u, trimStart (s +:+ String c "") = u +:+ String c "".
Proof.
  intros Hc. induction s as [|a s IH].
  - rewrite string_app_nil_l. cbn [trimStart]. rewrite Hc. by exists "".
  - rewrite string_app_cons. cbn [trimStart].
    destruct (is_whitespace a); [done|]. by exists (String a s).
Qed.

Lemma trimEnd_ends (s : string) : ends_with_whitespace (trimEnd s) = false.
Proof.
  unfold ends_with_whitespace, trimEnd. rewrite string_rev_involutive.
  apply trimStart_starts.
Qed.

Lemma trimEnd_starts (s : string) :
  starts_with_whitespace s = false ->
  starts_with_whitespace (trimEnd s) = false.
Proof.
  destruct s as [|c s]; [done|]. simpl. intros Hc.
  unfold trimEnd. rewrite string_rev_cons.
  destruct (trimStart_snoc (String.rev s) c Hc) as [u ->].
  rewrite string_rev_app. done.
Qed.

Lemma trim_trimmed (s : string) :
  starts_with_whitespace (trim s) = false /\
  ends_with_whitespace (trim s) = false.
Proof.
  unfold trim. split.
  - apply trimEnd_starts, trimStart_starts.
  - apply trimEnd_ends.
Qed.

Lemma trim_fixed (s : string) :
  starts_with_whitespace s = false -> ends_with_whitespace s = false ->
  trim s = s.
Proof.
  intros Hs He. unfold trim. rewrite (trimStart_fixed _ Hs).
  unfold trimEnd. rewrite (trimStart_fixed _ He). apply string_rev_involutive.
Qed.

Lemma trim_idempotent (s : string) : trim (trim s) = trim s.
Proof. destruct (trim_trimmed s). by apply trim_fixed. Qed.

(** No line of [split] holds the separator. *)
Lemma split_no_separator (sep : ascii) (s line : string) :
  line ∈ split sep s -> has_char sep line = false.
Proof.
  revert line. induction s as [|c s IH]; intros line; simpl.
  - intros ->%list_elem_of_singleton. done.
  - destruct (Ascii.eqb c sep) eqn:Hc.
    + intros [->|Hin]%elem_of_cons; [done|]. by apply IH.
    + destruct (split sep s) as [|h t] eqn:Hs.
      * intros ->%list_elem_of_singleton. simpl. by rewrite Hc.
      * intros [->|Hin]%elem_of_cons.
        -- simpl. rewrite Hc. simpl. apply IH. by left.
        -- apply IH. by right.
Qed.

Lemma has_char_append (c : ascii) (a b : string) :
  has_char c (a +:+ b) = has_char c a || has_char c b.
Proof.
  induction a as [|x a IH]; [done|].
  rewrite string_app_cons. cbn [has_char]. by rewrite IH, orb_assoc.
Qed.

Lemma has_char_rev (c : ascii) (s : string) :
  has_char c (String.rev s) = has_char c s.
Proof.
  induction s as [|x s IH]; [done|].
  rewrite string_rev_cons, has_char_append, IH. simpl.
  rewrite orb_false_r. apply orb_comm.
Qed.

Lemma has_char_trimStart (c : ascii) (s : string) :
  has_char c s = false -> has_char c (trimStart s) = false.
Proof.
  induction s as [|x s IH]; simpl; [done|].
  intros [Hx Hs]%orb_false_iff. destruct (is_whitespace x); [by apply IH|].
  simpl. by rewrite Hx, Hs.
Qed.

Lemma has_char_trim (c : ascii) (s : string) :
  has_char c s = false -> has_char c (trim s) = false.
Proof.
  intros Hs. unfold trim, trimEnd. rewrite has_char_rev.
  apply has_char_trimStart. rewrite has_char_rev. by apply has_char_trimStart.
Qed.

Lemma strlen_pos (s : string) : 0 < strlen s <-> s <> "".
Proof.
  unfold strlen. destruct s; simpl; split; try done; try lia.
Qed.

(** X3.  Every instruction the act operation passes on is one line of the
    block, trimmed and not empty; trimming it again changes nothing. *)
Theorem act_instructions_are_trimmed_lines (instructionsRaw instruction : string) :
  instruction ∈ act_instructions instructionsRaw ->
  instruction <> "" /\
  has_char LF instruction = false /\
  starts_with_whitespace instruction = false /\
  ends_with_whitespace instruction = false /\
  trim instruction = instruction /\
  exists line, line ∈ split LF instructionsRaw /\ instruction = trim line.
Proof.
  unfold act_instructions. intros Hin.
  apply list_elem_of_filter in Hin as [Hlen Hin].
  apply list_elem_of_fmap in Hin as (line & -> & Hline).
  destruct (trim_trimmed line) as [Hs He].
  split; [by apply strlen_pos|].
  split; [apply has_char_trim; by eapply split_no_separator|].
  split; [done|]. split; [done|]. split; [apply trim_idempotent|].
  by exists line.
Qed.

(** X4.  When the first line of the block is not blank, the instruction of
    extract and observe is the first instruction of act. *)
Theorem first_line_is_first_instruction (instructionsRaw : string) :
  first_line_instruction instructionsRaw <> "" ->
  first_nonempty_line instructionsRaw = Some (first_line_instruction instructionsRaw).
Proof.
  unfold first_line_instruction, first_nonempty_line, act_instructions.
  destruct (split LF instructionsRaw) as [|line rest] eqn:Hs; simpl; [done|].
  destruct (String.eqb_spec (trim line) "") as [Heq|Hne]; [done|].
  intros _. rewrite filter_cons_True; [done|]. by apply strlen_pos.
Qed.

(** ** The helpers, further *)

Section Aggregation.
Context `{Builtins}.

(** X5.  The output filter looks at each message on its own. *)
Theorem sanitizeMessages_app (before after : list LogLine) :
  sanitizeMessages (before ++ after) =
  sanitizeMessages before ++ sanitizeMessages after.
Proof. unfold sanitizeMessages. by rewrite filter_app, map_app. Qed.

Lemma add_prompt_found (u : value) (st st' : Totals) :
  add_prompt u st = inr st' -> found st' = found st.
Proof.
  unfold add_prompt. destruct (counter _ _ _); [done|].
  destruct (js_add _ _); [done|]. by intros [= <-].
Qed.

Lemma add_completion_found (u : value) (st st' : Totals) :
  add_completion u st = inr st' ->
  found st' = found st /\ totalPrompt st' = totalPrompt st.
Proof.
  unfold add_completion. destruct (counter _ _ _); [done|].
  destruct (js_add _ _); [done|]. by intros [= <-].
Qed.

Lemma add_total_found (u : value) (st st' : Totals) :
  add_total u st = inr st' ->
  found st' = found st /\ totalPrompt st' = totalPrompt st.
Proof.
  unfold add_total. destruct (counter _ _ _); [done|].
  destruct (js_add _ _); [done|]. by intros [= <-].
Qed.

Lemma try_block_found (u : value) (st : Totals) :
  found (try_ignore [set_found; add_prompt u; add_completion u; add_total u] st)
  = true.
Proof.
  cbn [try_ignore set_found].
  destruct (add_prompt u _) as [e|st1] eqn:H1; [done|].
  apply add_prompt_found in H1. simpl in H1.
  destruct (add_completion u st1) as [e|st2] eqn:H2; [done|].
  apply add_completion_found in H2 as [H2 _].
  destruct (add_total u st2) as [e|st3] eqn:H3; [congruence|].
  apply add_total_found in H3 as [H3 _]. congruence.
Qed.

Lemma usage_step_found (st : Totals) (msg : LogLine) :
  found (usage_step st msg) =
  found st || match usage_of msg with Some _ => true | None => false end.
Proof.
  destruct (usage_of msg) as [u|] eqn:Hu.
  - rewrite (usage_step_unfold _ _ _ Hu), try_block_found.
    by rewrite orb_true_r.
  - rewrite usage_step_skip by done. by rewrite orb_false_r.
Qed.

Lemma fold_usage_step_found (messages : list LogLine) (st : Totals) :
  found (fold_left usage_step messages st) =
  found st || match omap usage_of messages with [] => false | _ => true end.
Proof.
  revert st. induction messages as [|msg rest IH]; intros st; simpl.
  - by rewrite orb_false_r.
  - rewrite IH, usage_step_found. destruct (usage_of msg) as [u|]; simpl.
    + by rewrite !orb_true_r.
    + by rewrite orb_false_r.
Qed.

(** X6.  Usage aggregation returns [null] exactly when no message yields a
    usage object, whatever the counters of the usage objects are. *)
Theorem extractUsage_null_iff_no_usage (messages : list LogLine) :
  extractUsageFromMessages messages = Null <-> omap usage_of messages = [].
Proof.
  unfold extractUsageFromMessages. rewrite fold_usage_step_found. simpl.
  by destruct (omap usage_of messages) as [|u us].
Qed.

Lemma try_block_prompt (u : value) (st st1 : Totals) :
  add_prompt u (mkTotals (totalPrompt st) (totalCompletion st) (totalTokens st) true)
    = inr st1 ->
  totalPrompt (try_ignore [set_found; add_prompt u; add_completion u; add_total u] st)
  = totalPrompt st1.
Proof.
  intros H1. cbn [try_ignore set_found]. rewrite H1.
  destruct (add_completion u st1) as [e|st2] eqn:H2; [done|].
  apply add_completion_found in H2 as [_ H2].
  destruct (add_total u st2) as [e|st3] eqn:H3; [done|].
  apply add_total_found in H3 as [_ H3]. congruence.
Qed.

(** X8.  A counter that is a non-empty string is not added to the total: the
    total becomes the text of the sum so far followed by the string. *)
Theorem extractUsage_string_counter_is_appended
  (before : list LogLine) (msg : LogLine) (u : value) (s : string) :
  forallb well_typed before = true ->
  usage_of msg = Some u ->
  get_opt u "prompt_tokens" = Str s -> s <> "" ->
  get_opt (extractUsageFromMessages (before ++ [msg])) "prompt_tokens" =
    Str (num_to_string
           (sum_numbers (map (counter_of "prompt_tokens" "promptTokens")
                           (omap usage_of before))) +:+ s).
Proof.
  intros Hall Hu Hs Hne. unfold extractUsageFromMessages.
  rewrite fold_left_app. rewrite fold_usage_step by done. cbn [fold_left].
  rewrite (usage_step_unfold _ _ _ Hu), try_block_found.
  cbn [get_opt assoc String.eqb Ascii.eqb Bool.eqb default].
  erewrite try_block_prompt; last first.
  { unfold add_prompt, counter. cbn [totalPrompt totalCompletion totalTokens].
    assert (Hget : get u "prompt_tokens" = inr (Str s)).
    { destruct u; try done. unfold get, get_opt in *. by rewrite Hs. }
    rewrite Hget. cbn [truthy].
    destruct (String.eqb_spec s "") as [->|_]; [done|]. cbn [negb].
    reflexivity. }
  reflexivity.
Qed.

End Aggregation.

(** ** The field-list schema, names repeated *)

Lemma no_proto_name (fields : list Field) :
  Forall (fun f => fieldName f <> "__proto__") fields ->
  "__proto__" ∉ map fieldName fields.
Proof.
  intros Hall Hin. apply list_elem_of_fmap in Hin as (f & Heq & Hf).
  eapply Forall_forall in Hall; [|exact Hf]. by apply Hall.
Qed.

Lemma assign_keys {A : Type} (k : string) (v : A) (l : list (string * A)) :
  k ∈ map fst l -> map fst (assign k v l) = map fst l.
Proof.
  induction l as [|[k' v'] l IH]; simpl; intros Hin.
  - by apply elem_of_nil in Hin.
  - destruct (String.eqb_spec k k') as [->|Hk]; simpl; [done|].
    apply elem_of_cons in Hin as [?|Hin]; [done|]. by rewrite IH.
Qed.

(** An assignment keeps the names of the properties distinct. *)
Lemma NoDup_assign {A : Type} (k : string) (v : A) (l : list (string * A)) :
  NoDup (map fst l) -> NoDup (map fst (assign k v l)).
Proof.
  intros Hnd. destruct (decide (k ∈ map fst l)) as [Hin|Hin].
  - by rewrite assign_keys.
  - rewrite assign_new, map_app by done. simpl. apply NoDup_app.
    split; [done|]. split; [|apply NoDup_singleton].
    intros x Hx Hk. apply list_elem_of_singleton in Hk as ->. done.
Qed.

Lemma NoDup_fold_set_field (fields : list Field) (shape : list (string * ZodType)) :
  NoDup (map fst shape) -> NoDup (map fst (fold_left set_field fields shape)).
Proof.
  revert shape. induction fields as [|f fs IH]; intros shape Hnd; [done|].
  cbn [fold_left]. apply IH. unfold set_field, set_property.
  destruct (String.eqb _ "__proto__"); [done|]. by apply NoDup_assign.
Qed.

(** X9.  When a name is given more than once, the last descriptor with that
    name decides the contract of the property; a name that is not given
    is no property.  (No name is a property twice.) *)
Theorem fieldsToZodSchema_last_wins (fields : list Field) :
  Forall (fun f => fieldName f <> "__proto__") fields ->
  exists shape : list (string * ZodType),
    fieldsToZodSchema fields = ZObject shape Strip /\
    NoDup (map fst shape) /\
    forall k, assoc k shape =
      field_contract <$> last (filter (fun f => fieldName f = k) fields).
Proof.
  intros Hall. exists (fold_left set_field fields []). split; [reflexivity|].
  split; [apply NoDup_fold_set_field; constructor|].
  intros k. rewrite fold_set_field_last.
  destruct (String.eqb_spec k "__proto__") as [Heq|_].
  - rewrite filter_none; [done|].
    eapply Forall_impl; [exact Hall|]. intros f Hf. by rewrite Heq.
  - by destruct (last _).
Qed.

Lemma filter_NoDup_fmap {A B : Type} `{EqDecision B} (f : A -> B) (l : list A) (k : B) :
  NoDup (map f l) ->
  forall x, x ∈ l -> f x = k -> filter (fun y => f y = k) l = [x].
Proof.
  induction l as [|y l IH]; intros Hnd x Hin Hx; [by apply elem_of_nil in Hin|].
  simpl in Hnd. apply NoDup_cons in Hnd as [Hy Hnd].
  apply elem_of_cons in Hin as [->|Hin].
  - rewrite filter_cons_True by done. f_equal.
    apply filter_none. apply Forall_forall. intros z Hz Hfz. apply Hy.
    rewrite Hx, <- Hfz. by apply (list_elem_of_fmap_2 f).
  - rewrite filter_cons_False.
    + by apply IH.
    + intros Hfy. apply Hy. rewrite Hfy, <- Hx. by apply (list_elem_of_fmap_2 f).
Qed.

(** Descriptors with new, distinct names each add one property, after
    those that are there. *)
Lemma fold_set_field_fresh (fields : list Field) (shape : list (string * ZodType)) :
  NoDup (map fst shape ++ map fieldName fields) ->
  "__proto__" ∉ map fieldName fields ->
  fold_left set_field fields shape =
    shape ++ map (fun f => (fieldName f, field_contract f)) fields.
Proof.
  revert shape. induction fields as [|f fs IH]; intros shape Hnd Hproto; simpl.
  - by rewrite app_nil_r.
  - assert (Hf : fieldName f <> "__proto__").
    { intros Heq. apply Hproto. rewrite <- Heq. simpl. apply list_elem_of_here. }
    assert (Hnew : fieldName f ∉ map fst shape).
    { apply NoDup_app in Hnd as (_ & Hdis & _). intros Hin.
      apply (Hdis _ Hin). simpl. apply list_elem_of_here. }
    assert (Hset : set_field shape f = shape ++ [(fieldName f, field_contract f)]).
    { unfold set_field, set_property.
      destruct (String.eqb_spec (fieldName f) "__proto__") as [?|_]; [done|].
      by apply assign_new. }
    rewrite IH.
    + rewrite Hset. by rewrite <- app_assoc.
    + rewrite Hset, map_app. simpl. by rewrite <- app_assoc.
    + intros Hin. apply Hproto. simpl. by apply list_elem_of_further.
Qed.

(** X10.  With distinct names, the descriptors given in another order
    make a contract with the same properties: the properties of the one
    are those of the other, listed in another order, and every name has
    the same contract in both. *)
Theorem fieldsToZodSchema_order_independent (fields fields' : list Field) :
  Forall (fun f => fieldName f <> "__proto__") fields ->
  NoDup (map fieldName fields) ->
  fields ≡ₚ fields' ->
  exists shape shape' : list (string * ZodType),
    fieldsToZodSchema fields = ZObject shape Strip /\
    fieldsToZodSchema fields' = ZObject shape' Strip /\
    shape ≡ₚ shape' /\
    forall k, assoc k shape = assoc k shape'.
Proof.
  intros Hall Hnd Hperm.
  assert (Hnd' : NoDup (map fieldName fields')).
  { change (NoDup (fieldName <$> fields')). rewrite <- Hperm. exact Hnd. }
  assert (Hall' : Forall (fun f => fieldName f <> "__proto__") fields').
  { by rewrite <- Hperm. }
  exists (fold_left set_field fields []), (fold_left set_field fields' []).
  split; [reflexivity|]. split; [reflexivity|]. split.
  { rewrite !fold_set_field_fresh by (done || by apply no_proto_name).
    cbn [app]. by apply fmap_Permutation. }
  intros k. rewrite !fold_set_field_last.
  destruct (String.eqb k "__proto__"); [done|].
  destruct (decide (k ∈ map fieldName fields)) as [Hin|Hin].
  - apply list_elem_of_fmap in Hin as (f & -> & Hf).
    rewrite (filter_NoDup_fmap fieldName fields _ Hnd f Hf eq_refl).
    assert (Hf' : f ∈ fields') by by rewrite <- Hperm.
    by rewrite (filter_NoDup_fmap fieldName fields' _ Hnd' f Hf' eq_refl).
  - rewrite !filter_none; [done| |].
    + apply Forall_forall. intros f Hf Hk. apply Hin. rewrite <- Hk.
      apply (list_elem_of_fmap_2 fieldName). by rewrite Hperm.
    + apply Forall_forall. intros f Hf Hk. apply Hin. rewrite <- Hk.
      by apply (list_elem_of_fmap_2 fieldName).
Qed.

(** ** The buffer of log lines *)

Section Log.
Context `{Builtins} `{Workflow} `{SchemaLibs} `{Engine}.

(** X11.  The buffer of an item holds the lines of the calls made for this
    item, in their order, and nothing of what it held before. *)
Theorem item_buffer_holds_its_own_lines
  (model : ChatModel) (i : nat) (it : Item) (st : State) :
  exists evs,
    trace (fst (process_item model i it st)) = trace st ++ evs /\
    messages (fst (process_item model i it st)) = lines_of (trace st) evs.
Proof.
  destruct (process_item_effect model i it st) as (evs & recs & r & -> & _).
  by exists evs.
Qed.

(** X12.  The record of an item lists, under the option, the filtered lines of
    the calls made for the item before [close]; without the option it has
    no [messages] entry. *)
Theorem item_record_lists_lines_before_close
  (model : ChatModel) (i : nat) (it : Item) (st : State) (rec : OutputRecord) :
  results (fst (process_item model i it st)) = results st ++ [rec] ->
  exists before ok,
    trace (fst (process_item model i it st)) =
      trace st ++ before ++ [mkEvent (mkSession i (options_of model it)) Close ok] /\
    get_opt (json rec) "messages" =
      if logMessages it
      then Arr (sanitizeMessages (lines_of (trace st) before))
      else Undefined.
Proof.
  destruct (process_item_effect model i it st)
    as (evs & recs & r & -> & _ & Hcases).
  cbn [fst results trace]. intros Hres. apply app_inv_head in Hres.
  destruct Hcases as [(e & _ & -> & _)|[(e & _ & _ & -> & _)|
    (body & ok & rec' & -> & _ & -> & _ & Hrec & _)]]; [done..|].
  injection Hres as ->.
  exists (opening (mkSession i (options_of model it)) it ++ body), ok.
  split; [by rewrite <- app_assoc|]. exact Hrec.
Qed.

End Log.

(** ** Sessions, items and operations *)

Lemma nondecreasing_app (n : nat) (l1 l2 : list nat) :
  Forall (fun x => x = n) l1 -> Forall (fun x => (n <= x)%nat) l2 ->
  nondecreasing l2 -> nondecreasing (l1 ++ l2).
Proof.
  intros H1 H2 Hnd a b x y Ha Hb Hab.
  apply lookup_app_Some in Ha as [Ha|[Hla Ha]];
    apply lookup_app_Some in Hb as [Hb|[Hlb Hb]].
  - rewrite Forall_lookup in H1. rewrite (H1 _ _ Ha), (H1 _ _ Hb). done.
  - rewrite Forall_lookup in H1, H2. rewrite (H1 _ _ Ha).
    apply (H2 _ _ Hb).
  - apply lookup_lt_Some in Hb. lia.
  - apply (Hnd _ _ _ _ Ha Hb). lia.
Qed.

Section Sessions.
Context `{Builtins} `{Workflow} `{SchemaLibs} `{Engine}.

Lemma process_item_sessions
  (model : ChatModel) (i : nat) (it : Item) (st : State) :
  exists evs msgs recs r,
    process_item model i it st =
      (mkState (trace st ++ evs) msgs (results st ++ recs), r) /\
    Forall (fun ev => session ev = mkSession i (options_of model it)) evs.
Proof.
  destruct (process_item_effect model i it st)
    as (evs & recs & r & Hp & Hown & _).
  by exists evs, (lines_of (trace st) evs), recs, r.
Qed.

Lemma for_items_sessions
  (model : ChatModel) (items : list Item) (i : nat) (st : State) :
  exists evs,
    trace (fst (for_items model i items st)) = trace st ++ evs /\
    Forall (fun ev =>
              (i <= owner (session ev))%nat /\
              exists it, items !! (owner (session ev) - i)%nat = Some it /\
                session ev = mkSession (owner (session ev)) (options_of model it))
      evs /\
    nondecreasing ((fun ev => owner (session ev)) <$> evs).
Proof.
  revert i st. induction items as [|it rest IH]; intros i st.
  - exists []. simpl. rewrite app_nil_r. split; [done|]. split; [done|].
    intros a b x y Ha. by rewrite lookup_nil in Ha.
  - cbn [for_items]. unfold bind at 1.
    destruct (process_item_sessions model i it st)
      as (evs1 & msgs1 & recs1 & r1 & -> & Hown).
    assert (Hown' : Forall (fun ev =>
              (i <= owner (session ev))%nat /\
              exists it', (it :: rest) !! (owner (session ev) - i)%nat = Some it' /\
                session ev = mkSession (owner (session ev)) (options_of model it'))
              evs1).
    { eapply Forall_impl; [exact Hown|]. intros ev Hev. cbn beta.
      rewrite Hev. cbn [owner].
      split; [done|]. exists it. by rewrite Nat.sub_diag. }
    assert (Heq : Forall (fun x => x = i) ((fun ev => owner (session ev)) <$> evs1)).
    { apply Forall_fmap. eapply Forall_impl; [exact Hown|].
      intros ev Hev. simpl. by rewrite Hev. }
    destruct r1 as [e|[]].
    + exists evs1. split; [done|]. split; [done|].
      rewrite <- (app_nil_r (_ <$> evs1)).
      eapply nondecreasing_app; [exact Heq|done|].
      intros a b x y Ha. by rewrite lookup_nil in Ha.
    + match goal with |- context [for_items model (S i) rest ?s] =>
        destruct (IH (S i) s) as (evs2 & Htr & Hsess & Hnd) end.
      exists (evs1 ++ evs2). rewrite Htr. cbn [trace].
      split; [by rewrite app_assoc|]. split.
      * apply Forall_app. split; [done|].
        eapply Forall_impl; [exact Hsess|]. intros ev (Hle & it' & Hit & Hs).
        split; [lia|]. exists it'. split; [|done].
        replace (owner (session ev) - i)%nat
          with (S (owner (session ev) - S i)) by lia. done.
      * rewrite fmap_app. eapply nondecreasing_app; [exact Heq| |done].
        apply Forall_fmap. eapply Forall_impl; [exact Hsess|].
        intros ev [Hle _]. simpl. lia.
Qed.

Lemma run_trace (model : ChatModel) (items : list Item) :
  trace (fst (run model items)) =
    if isChatInstance model
    then trace (fst (for_items model 0 items initial)) else [].
Proof.
  unfold run, execute, assert. destruct (isChatInstance model); [|done].
  unfold bind at 1. cbn [ret]. unfold bind at 1.
  by destruct (for_items model 0 items initial) as [st1 [e|[]]].
Qed.

(** X13.  Every call of a run is made on the session of one item: the session
    carries the index of the item and the options built from that item
    and the model.  The calls come item after item, in the order of the
    items. *)
Theorem calls_are_made_item_by_item (model : ChatModel) (items : list Item) :
  let calls := trace (fst (run model items)) in
  Forall (fun ev =>
            exists it, items !! owner (session ev) = Some it /\
              session ev = mkSession (owner (session ev)) (options_of model it))
    calls /\
  nondecreasing ((fun ev => owner (session ev)) <$> calls).
Proof.
  intros calls. subst calls. rewrite run_trace.
  destruct (isChatInstance model).
  - destruct (for_items_sessions model items 0 initial) as (evs & -> & Hs & Hnd).
    cbn [trace initial app].
    split; [|exact Hnd]. eapply Forall_impl; [exact Hs|].
    intros ev (_ & it & Hit & Hsess). exists it.
    by rewrite Nat.sub_0_r in Hit.
  - split; [done|]. intros a b x y Ha. done.
Qed.

(** X14.  An item's calls start with the opening of its session.  The page is
    navigated to once, right after the opening, with the URL of the item,
    and only when that URL is not empty; nothing is opened a second time.
    When the opening or the navigation throws, no other call follows. *)
Theorem session_opens_then_navigates
  (model : ChatModel) (i : nat) (it : Item) (st : State) :
  let sh := mkSession i (options_of model it) in
  exists opened arrived others,
    trace (fst (process_item model i it st)) =
      trace st ++ mkEvent sh Init opened
        :: (if opened && negb (String.eqb (pageUrl it) "")
            then [mkEvent sh (Goto (pageUrl it)) arrived] else [])
        ++ others /\
    Forall (fun ev => is_init (call ev) = false /\ is_goto (call ev) = false)
      others /\
    (opened = false -> others = []) /\
    (pageUrl it <> "" -> arrived = false -> others = []).
Proof.
  intros sh.
  destruct (process_item_effect model i it st)
    as (evs & recs & r & Hp & _ & Hcases).
  rewrite Hp. cbn [fst trace]. fold sh in Hcases.
  destruct Hcases as [(e & -> & _)|[(e & Hurl & -> & _)|
    (body & ok & rec & -> & Hbody & _)]]; unfold opening.
  - exists false, false, []. simpl. done.
  - exists true, false, []. simpl.
    destruct (String.eqb_spec (pageUrl it) "") as [?|_]; [done|]. simpl. done.
  - exists true, true, (body ++ [mkEvent sh Close ok]). simpl.
    split; [by destruct (String.eqb (pageUrl it) "")|]. split.
    + apply Forall_app. split; [|by repeat constructor].
      eapply Forall_impl; [exact Hbody|]. intros ev [_ Hl].
      by destruct (call ev).
    + done.
Qed.

(** X15.  An operation tag outside the four known ones makes no call: the
    [try] block throws at once an error that names the tag, and the item
    gets the error record of that error (the error of the record is what
    the host's [NodeOperationError] makes of it and of the message of the
    node). *)
Theorem unsupported_operation_is_an_error_record
  (sh : Session) (it : Item) (st : State) :
  operation it ∉ ["act"; "extract"; "observe"; "agent"] ->
  let e := mkError "ApplicationError" ("Unsupported operation: " +:+ operation it) in
  dispatch sh it st = (st, inl e) /\
  try_catch (dispatch sh it) (on_error it) st =
    (extend st [] [] [error_record it e (messages st)], inr tt) /\
  error (error_record it e (messages st)) =
    Some (NodeOperationError e
            ("Error executing Stagehand operation: "
             +:+ "Unsupported operation: " +:+ operation it)).
Proof.
  intros Hop e.
  assert (Hd : dispatch sh it st = (st, inl e)).
  { unfold dispatch. cbv zeta.
    repeat match goal with
    | |- context [String.eqb (operation it) ?s] =>
        destruct (String.eqb_spec (operation it) s) as [Heq|_];
          [exfalso; apply Hop; rewrite Heq; set_solver|]
    end.
    done. }
  split; [exact Hd|]. split; [|reflexivity].
  unfold try_catch. rewrite Hd.
  unfold on_error. by rewrite bind_spread, push_result_eq.
Qed.

Lemma resolve_schema_unknown_source (it : Item) :
  schemaSource it ∉ ["fieldList"; "example"; "jsonSchema"; "manual"] ->
  resolve_schema it =
    inl (mkError "ApplicationError"
           ("Unsupported schema source: " +:+ schemaSource it)).
Proof.
  intros Hsrc. unfold resolve_schema. cbv zeta.
  repeat match goal with
  | |- context [String.eqb (schemaSource it) ?s] =>
      destruct (String.eqb_spec (schemaSource it) s) as [Heq|_];
        [exfalso; apply Hsrc; rewrite Heq; set_solver|]
  end.
  done.
Qed.

(** X16.  When the schema of an extract item cannot be resolved, [extract] is
    not called: the switch throws the error of the resolution, and the
    item gets the error record of that error. *)
Theorem unresolved_schema_makes_no_call
  (sh : Session) (it : Item) (st : State) (e : Error) :
  operation it = "extract" ->
  resolve_schema it = inl e ->
  dispatch sh it st = (st, inl e) /\
  try_catch (dispatch sh it) (on_error it) st =
    (extend st [] [] [error_record it e (messages st)], inr tt) /\
  error (error_record it e (messages st)) =
    Some (NodeOperationError e
            ("Error executing Stagehand operation: " +:+ err_message e)) /\
  get_opt (json (error_record it e (messages st))) "operation" = Str "extract".
Proof.
  intros Hop Hres.
  assert (Hd : dispatch sh it st = (st, inl e)).
  { rewrite (dispatch_op sh it _ Hop).
    cbn [String.eqb Ascii.eqb Bool.eqb]. unfold do_extract. cbv zeta.
    unfold bind at 1, lift. by rewrite Hres. }
  split; [exact Hd|]. split; [|split; [reflexivity|]].
  - unfold try_catch. rewrite Hd.
    unfold on_error. by rewrite bind_spread, push_result_eq.
  - unfold error_record. cbn [json get_opt assoc]. by rewrite Hop.
Qed.

(** X17.  A schema source outside the four known ones is such a failure: the
    error names the source. *)
Theorem unsupported_schema_source_is_an_error_record
  (sh : Session) (it : Item) (st : State) :
  operation it = "extract" ->
  schemaSource it ∉ ["fieldList"; "example"; "jsonSchema"; "manual"] ->
  let e := mkError "ApplicationError"
             ("Unsupported schema source: " +:+ schemaSource it) in
  resolve_schema it = inl e /\
  try_catch (dispatch sh it) (on_error it) st =
    (extend st [] [] [error_record it e (messages st)], inr tt) /\
  error (error_record it e (messages st)) =
    Some (NodeOperationError e
            ("Error executing Stagehand operation: "
             +:+ "Unsupported schema source: " +:+ schemaSource it)).
Proof.
  intros Hop Hsrc e.
  pose proof (resolve_schema_unknown_source it Hsrc) as Hres. fold e in Hres.
  split; [exact Hres|]. split; [|reflexivity].
  unfold try_catch. rewrite (dispatch_op sh it _ Hop).
  cbn [String.eqb Ascii.eqb Bool.eqb]. unfold do_extract. cbv zeta.
  unfold bind at 1, lift. rewrite Hres.
  unfold on_error. by rewrite bind_spread, push_result_eq.
Qed.

Lemma act_instructions_nil (instructionsRaw : string) :
  act_instructions instructionsRaw = [] <->
  Forall (fun line => trim line = "") (split LF instructionsRaw).
Proof.
  unfold act_instructions. induction (split LF instructionsRaw) as [|l ls IH].
  - done.
  - cbn [map]. destruct (decide (0 < strlen (trim l))) as [Hl|Hl].
    + rewrite filter_cons_True by done. split; [done|].
      intros [Hb _]%Forall_cons. apply strlen_pos in Hl. done.
    + rewrite filter_cons_False by done. rewrite IH, Forall_cons.
      assert (trim l = "").
      { destruct (trim l) eqn:Ht; [done|]. exfalso. apply Hl.
        unfold strlen. simpl. lia. }
      tauto.
Qed.

(** X18.  An act item whose lines are all blank makes no [act] call: the page
    URL is read, and the record has an empty list of results. *)
Theorem act_without_instructions (sh : Session) (it : Item) (st : State) :
  operation it = "act" ->
  Forall (fun line => trim line = "") (split LF (instructions it)) ->
  exists lines recs r,
    dispatch sh it st = (extend st [event_of st sh Url] lines recs, r) /\
    match outcome (respond (trace st) sh Url) with
    | inl e => r = inl e /\ recs = []
    | inr url =>
        r = inr tt /\
        exists spread,
          recs = [mkRecord None
                    (Obj ([("operation", Str "act"); ("results", Arr []);
                           ("currentUrl", url)] ++ spread))]
    end.
Proof.
  intros Hop Hblank. apply act_instructions_nil in Hblank.
  rewrite (dispatch_op sh it _ Hop). cbn [String.eqb Ascii.eqb Bool.eqb].
  unfold do_act. rewrite Hblank. cbn [act_loop]. unfold bind at 1, ret.
  rewrite bind_invoke. cbv zeta. destruct (outcome _) as [e|url].
  - by eexists _, [], _.
  - rewrite bind_spread, push_result_eq, extend_extend, Hop.
    eexists _, _, _. split; [reflexivity|]. split; [done|]. eauto.
Qed.

(** X19.  The agent operation creates an agent, runs it with the whole block of
    instructions, trimmed, with the step limit of the item and with the
    context only if it is not empty, and then reads the page URL.  A call
    that throws is the last one, and its error is the outcome.  A call
    that returns is followed by the next one: the operation ends after a
    call that returned only when that call is the reading of the URL,
    and the operation returns with one record, or when it is the run of
    the agent and the actions of its result cannot be simplified, which
    is then the error thrown. *)
Theorem agent_calls_in_order (sh : Session) (it : Item) (st : State) :
  operation it = "agent" ->
  let plan :=
    [Agent;
     AgentExecute (trim (instructions it)) (item_maxSteps it)
       (if String.eqb (agentContext it) "" then None else Some (agentContext it));
     Url] in
  exists before final lines recs r,
    dispatch sh it st = (extend st (before ++ [final]) lines recs, r) /\
    call <$> before ++ [final] = take (S (length before)) plan /\
    Forall (fun ev => returned ev = true) before /\
    (returned final = false ->
       recs = [] /\
       exists e, r = inl e /\
         outcome (respond (trace st ++ before) sh (call final)) = inl e) /\
    (returned final = true ->
       (length before = 2%nat /\ r = inr tt /\ exists rec, recs = [rec]) \/
       (length before = 1%nat /\ recs = [] /\
        exists agentResult e,
          outcome (respond (trace st ++ before) sh (call final)) = inr agentResult /\
          simplify_actions agentResult = inl e /\ r = inl e)) /\
    (r = inr tt -> length before = 2%nat).
Proof.
  intros Hop plan. subst plan.
  rewrite (dispatch_op sh it _ Hop). cbn [String.eqb Ascii.eqb Bool.eqb].
  unfold do_agent. cbv zeta. rewrite bind_invoke. cbv zeta.
  destruct (outcome (respond (trace st) sh Agent)) as [e|v0] eqn:Hagent.
  { exists [], (event_of st sh Agent). eexists _, [], _.
    split; [by rewrite ?extend_extend|]. split; [done|]. split; [done|].
    assert (Hf : returned (event_of st sh Agent) = false).
    { unfold event_of. cbn [returned]. by rewrite Hagent. }
    split; [|split; [by rewrite Hf|done]].
    intros _. split; [done|]. exists e. by rewrite app_nil_r. }
  assert (Hr0 : returned (event_of st sh Agent) = true).
  { unfold event_of. cbn [returned]. by rewrite Hagent. }
  rewrite bind_invoke. cbv zeta.
  match goal with |- context [event_of ?s sh (AgentExecute ?a ?b ?c)] =>
    set (st1 := s); set (exec := AgentExecute a b c) end.
  assert (Htr1 : trace st1 = trace st ++ [event_of st sh Agent]) by done.
  destruct (outcome (respond (trace st1) sh exec)) as [e|agentResult] eqn:Hexec.
  { exists [event_of st sh Agent], (event_of st1 sh exec). eexists _, [], _.
    split; [subst st1; by rewrite ?extend_extend|]. split; [done|].
    split; [by repeat constructor|].
    assert (Hf : returned (event_of st1 sh exec) = false).
    { unfold event_of. cbn [returned]. by rewrite Hexec. }
    split; [|split; [by rewrite Hf|done]].
    intros _. split; [done|]. exists e. split; [done|]. by rewrite <- Htr1. }
  assert (Hr1 : returned (event_of st1 sh exec) = true).
  { unfold event_of. cbn [returned]. by rewrite Hexec. }
  unfold bind at 1, get_messages. unfold bind at 1, lift.
  destruct (simplify_actions agentResult) as [e|actions] eqn:Hsimp.
  { exists [event_of st sh Agent], (event_of st1 sh exec). eexists _, [], _.
    split; [subst st1; by rewrite ?extend_extend|]. split; [done|].
    split; [by repeat constructor|]. split; [intros Hf; congruence|].
    split; [|done]. intros _. right. split; [done|]. split; [done|].
    exists agentResult, e. rewrite <- Htr1.
    split; [|done]. unfold event_of. by rewrite Hexec. }
  rewrite bind_invoke. cbv zeta.
  match goal with |- context [event_of ?s sh Url] => set (st2 := s) end.
  assert (Htr2 : trace st2 =
                 trace st ++ [event_of st sh Agent; event_of st1 sh exec]).
  { subst st2 st1. cbn [trace extend]. by rewrite <- app_assoc. }
  destruct (outcome (respond (trace st2) sh Url)) as [e|url] eqn:Hurl.
  { exists [event_of st sh Agent; event_of st1 sh exec], (event_of st2 sh Url).
    eexists _, [], _.
    split; [subst st2 st1; by rewrite ?extend_extend|]. split; [done|].
    split; [by repeat constructor|].
    assert (Hf : returned (event_of st2 sh Url) = false).
    { unfold event_of. cbn [returned]. by rewrite Hurl. }
    split; [|split; [by rewrite Hf|done]].
    intros _. split; [done|]. exists e. split; [done|]. by rewrite <- Htr2. }
  rewrite bind_spread, push_result_eq.
  exists [event_of st sh Agent; event_of st1 sh exec], (event_of st2 sh Url).
  eexists _, _, _.
  split; [subst st2 st1; by rewrite ?extend_extend|]. split; [done|].
  split; [by repeat constructor|]. split.
  { unfold event_of at 1. cbn [returned]. rewrite Hurl. done. }
  split; [|done]. intros _. left. split; [done|]. split; [done|]. eauto.
Qed.

Lemma map_result_simplify (actions out : list value) :
  map_result simplify_action actions = inr out <->
  Forall (fun action => nullish action = false) actions /\
  out = simplified <$> actions.
Proof.
  revert out. induction actions as [|a actions IH]; intros out; simpl.
  - split; [by intros [= <-]|by intros [_ ->]].
  - unfold simplify_action at 1.
    destruct a as [| |b|n|s|l|props]; simpl;
      try (split; [done|by intros [[? _]%Forall_cons _]]);
      (destruct (map_result simplify_action actions) as [e|ys] eqn:Hm;
       [split; [done|]; intros [[_ Hall]%Forall_cons ->];
        destruct (IH (simplified <$> actions)) as [_ IH2];
        by specialize (IH2 (conj Hall eq_refl))
       |destruct (IH ys) as [IH1 _]; destruct (IH1 eq_refl) as [Hall ->];
        split; [intros [= <-]; split; [by constructor|done]
               |by intros [_ ->]]]).
Qed.

Lemma simplify_actions_inr (agentResult : value) (out : list value) :
  simplify_actions agentResult = inr out ->
  exists actions,
    get_opt agentResult "actions" = Arr actions /\
    out = simplified <$> actions.
Proof.
  unfold simplify_actions.
  destruct agentResult as [| |b|n|s|l|props]; simpl; try done.
  destruct (default Undefined (assoc "actions" props)) as [| |b|n|s|l|ps];
    try done.
  intros [_ ->]%map_result_simplify. by exists l.
Qed.

(** X20.  Simplifying the agent's result succeeds exactly when its [actions]
    is an array without [null] or [undefined] entries; each action is
    then reduced to its type, reasoning, parameters and completion flag,
    in the same order. *)
Theorem simplify_actions_spec (agentResult : value) (out : list value) :
  simplify_actions agentResult = inr out <->
  exists actions,
    get_opt agentResult "actions" = Arr actions /\
    Forall (fun action => nullish action = false) actions /\
    out = simplified <$> actions.
Proof.
  unfold simplify_actions.
  destruct agentResult as [| |b|n|s|l|props]; simpl;
    try (split; [done|by intros (? & ? & _)]).
  destruct (default Undefined (assoc "actions" props)) as [| |b|n|s|l|ps] eqn:Ha;
    try (split; [done|by intros (? & ? & _)]).
  rewrite map_result_simplify. split.
  - intros [Hall ->]. by exists l.
  - by intros (actions & [= <-] & Hall & ->).
Qed.

(** X21.  Without a chat model nothing is done: the assertion of the
    host fails and the run ends with its error, a plain [Error] with the
    message of the node, before any session is created. *)
Theorem run_requires_a_chat_model (model : ChatModel) (items : list Item) :
  "chat_models" ∉ lc_namespace model ->
  run model items =
    (initial, inl (mkError "Error" "A Chat Model is required")).
Proof.
  intros Hns. unfold run, execute, assert.
  assert (isChatInstance model = false) as ->; [|done].
  unfold isChatInstance. apply not_true_is_false. intros Hex.
  apply existsb_exists in Hex as (x & Hin & Hx).
  apply String.eqb_eq in Hx as <-. apply Hns. by apply list_elem_of_In.
Qed.

(** X22.  A model whose name contains [deepseek] is announced to the engine
    under the provider [deepseek], unless its namespace is of the Google
    family, which is announced as [google] whatever the name. *)
Theorem deepseek_override_yields_to_google
  (model : ChatModel) (it : Item) (pre post : string) :
  model_name model = pre +:+ "deepseek" +:+ post ->
  modelName (options_of model it) =
    (if bool_decide (lc_namespace model !! 2%nat = Some "google_genai" \/
                     lc_namespace model !! 2%nat = Some "google_vertexai")
     then "google" else "deepseek") +:+ "/" +:+ model_name model.
Proof.
  intros Hname. cbn [options_of modelName]. f_equal. unfold provider_of.
  assert (includes (model_name model) "deepseek" = true) as ->.
  { apply includes_spec. eauto. }
  destruct (lc_namespace model !! 2%nat) as [p|] eqn:Hp; unfold default, from_option, id.
  - destruct (String.eqb_spec p "google_genai") as [->|Hg1].
    { rewrite bool_decide_eq_true_2 by auto. done. }
    destruct (String.eqb_spec p "google_vertexai") as [->|Hg2].
    { rewrite bool_decide_eq_true_2 by auto. done. }
    rewrite bool_decide_eq_false_2; [done|]. intros [[= ?]|[= ?]]; done.
  - rewrite bool_decide_eq_false_2; [done|]. intros [?|?]; done.
Qed.

Lemma bind_assoc {A B C : Type} (c : M A) (f : A -> M B) (g : B -> M C)
  (st : State) :
  bind (bind c f) g st = bind c (fun a => bind (f a) g) st.
Proof. unfold bind. by destruct (c st) as [st' [e|a]]. Qed.

Lemma bind_ext {A B : Type} (c : M A) (f g : A -> M B) (st : State) :
  (forall a st', f a st' = g a st') -> bind c f st = bind c g st.
Proof. intros Hfg. unfold bind. by destruct (c st) as [st' [e|a]]. Qed.

(** X23.  Processing a batch is processing its first items and then, if no
    session call threw, the remaining ones under their own indices. *)
Theorem for_items_app (model : ChatModel) (first more : list Item) (i : nat)
  (st : State) :
  for_items model i (first ++ more) st =
    bind (for_items model i first)
      (fun _ => for_items model (i + length first) more) st.
Proof.
  revert i st. induction first as [|it rest IH]; intros i st.
  - simpl. unfold bind, ret. by rewrite Nat.add_0_r.
  - cbn [for_items app length]. rewrite bind_assoc.
    apply bind_ext. intros _ st1. rewrite IH. by rewrite Nat.add_succ_r.
Qed.

End Sessions.

(** ** The records of the operations *)

Section Records.
Context `{Builtins} `{Workflow} `{SchemaLibs} `{Engine}.

(** X24.  The record of an agent item that returned: the three flags of the
    agent's result are copied, the actions are the simplified actions of
    the result and [actionCount] is their number, [usage] is aggregated
    from the buffer as the run of the agent left it, and [currentUrl] is
    what the page reported afterwards. *)
Theorem agent_record_reports_the_result
  (sh : Session) (it : Item) (st st' : State) :
  operation it = "agent" ->
  dispatch sh it st = (st', inr tt) ->
  let exec :=
    AgentExecute (trim (instructions it)) (item_maxSteps it)
      (if String.eqb (agentContext it) "" then None else Some (agentContext it)) in
  let ran := [mkEvent sh Agent true; mkEvent sh exec true] in
  exists agentResult actions url rec,
    outcome (respond (trace st ++ [mkEvent sh Agent true]) sh exec) = inr agentResult /\
    outcome (respond (trace st ++ ran) sh Url) = inr url /\
    get_opt agentResult "actions" = Arr actions /\
    st' = grow st (ran ++ [mkEvent sh Url true]) [rec] /\
    error rec = None /\
    get_opt (json rec) "success" = get_opt agentResult "success" /\
    get_opt (json rec) "message" = get_opt agentResult "message" /\
    get_opt (json rec) "completed" = get_opt agentResult "completed" /\
    get_opt (json rec) "actions" = Arr (simplified <$> actions) /\
    get_opt (json rec) "actionCount" = Num (Z.of_nat (length actions)) /\
    get_opt (json rec) "usage" =
      extractUsageFromMessages (messages st ++ lines_of (trace st) ran) /\
    get_opt (json rec) "currentUrl" = url.
Proof.
  intros Hop Hd exec ran. revert Hd.
  rewrite (dispatch_op sh it _ Hop). cbn [String.eqb Ascii.eqb Bool.eqb].
  unfold do_agent. cbv zeta. fold exec. rewrite bind_invoke_grow.
  destruct (outcome (respond (trace st) sh Agent)) as [e|v0] eqn:Hagent;
    [intros [=]|].
  rewrite (event_of_returned _ _ _ _ Hagent).
  rewrite bind_invoke_grow.
  match goal with |- context [event_of ?s sh exec] => set (st1 := s) end.
  destruct (outcome (respond (trace st1) sh exec)) as [e|agentResult] eqn:Hexec;
    [intros [=]|].
  rewrite (event_of_returned _ _ _ _ Hexec).
  unfold bind at 1, get_messages. unfold bind at 1, lift.
  destruct (simplify_actions agentResult) as [e|out] eqn:Hsimp; [intros [=]|].
  apply simplify_actions_inr in Hsimp as (actions & Hactions & ->).
  rewrite bind_invoke_grow.
  match goal with |- context [event_of ?s sh Url] => set (st2 := s) end.
  destruct (outcome (respond (trace st2) sh Url)) as [e|url] eqn:Hurl;
    [intros [=]|].
  rewrite (event_of_returned _ _ _ _ Hurl).
  rewrite bind_spread, push_result_grow. subst st2 st1. rewrite !grow_grow.
  intros [= <-]. cbn [trace grow] in Hexec, Hurl.
  rewrite <- app_assoc in Hurl.
  eexists agentResult, actions, url, _.
  split; [exact Hexec|]. split; [exact Hurl|]. split; [exact Hactions|].
  split; [reflexivity|]. split; [reflexivity|].
  cbn [json get_opt app assoc String.eqb Ascii.eqb Bool.eqb default].
  rewrite length_fmap, app_nil_r. unfold id.
  repeat split; try reflexivity.
  subst ran. cbn [lines_of session call]. by rewrite app_nil_r.
Qed.

(** X25.  The record of an observe item, and of an extract item whose schema
    resolved: one call is made; what it returns is the [result] of the
    record, unchanged, and what it throws is given to the host's
    [NodeOperationError], with the message of the node, to make the
    error of the record, which then has no [result]. *)
Theorem extract_observe_record_is_the_answer
  (sh : Session) (it : Item) (st : State) (c : Call) :
  (operation it = "observe" /\
   c = Observe (first_line_instruction (instructions it))) \/
  (operation it = "extract" /\
   exists schema, resolve_schema it = inr schema /\
     c = Extract (first_line_instruction (instructions it)) schema) ->
  exists rec,
    try_catch (dispatch sh it) (on_error it) st =
      (grow st [event_of st sh c] [rec], inr tt) /\
    match outcome (respond (trace st) sh c) with
    | inr v => error rec = None /\ get_opt (json rec) "result" = v
    | inl e =>
        error rec =
          Some (NodeOperationError e
                  ("Error executing Stagehand operation: " +:+ err_message e)) /\
        get_opt (json rec) "result" = Undefined
    end.
Proof.
  assert (Hkey : forall spread : bool, forall buffer,
            assoc "result"
              (if spread then [("messages", Arr (sanitizeMessages buffer))]
               else []) = None).
  { by intros []. }
  intros [[Hop ->]|(Hop & schema & Hres & ->)]; unfold try_catch;
    rewrite (dispatch_op sh it _ Hop); cbn [String.eqb Ascii.eqb Bool.eqb].
  - unfold do_observe. rewrite bind_invoke_grow.
    destruct (outcome _) as [e|v].
    + unfold on_error. rewrite bind_spread, push_result_grow, grow_grow.
      eexists. split; [reflexivity|]. split; [reflexivity|].
      cbn [json get_opt app assoc String.eqb Ascii.eqb Bool.eqb].
      by rewrite Hkey.
    + rewrite bind_spread, push_result_grow, grow_grow.
      eexists. split; [reflexivity|]. done.
  - unfold do_extract. cbv zeta. unfold bind at 1, lift. rewrite Hres.
    rewrite bind_invoke_grow. destruct (outcome _) as [e|v].
    + unfold on_error. rewrite bind_spread, push_result_grow, grow_grow.
      eexists. split; [reflexivity|]. split; [reflexivity|].
      cbn [json get_opt app assoc String.eqb Ascii.eqb Bool.eqb].
      by rewrite Hkey.
    + rewrite bind_spread, push_result_grow, grow_grow.
      eexists. split; [reflexivity|]. done.
Qed.

End Records.

(** ** The further properties on concrete cases *)

Section OnCases.
Import Reference Examples Runs Cases.

Lemma act_instructions_are_trimmed_lines_witness :
  "Type B" ∈ act_instructions act_block /\
  has_char LF "Type B" = false /\
  trim "Type B" = "Type B" /\
  exists line, line ∈ split LF act_block /\ "Type B" = trim line.
Proof.
  assert (Hin : "Type B" ∈ act_instructions act_block).
  { assert (act_instructions act_block = ["Click A"; "Type B"]) as ->
      by (vm_compute; reflexivity).
    apply list_elem_of_further, list_elem_of_here. }
  split; [exact Hin|].
  destruct (act_instructions_are_trimmed_lines act_block "Type B" Hin)
    as (_ & Hlf & _ & _ & Htrim & Hline).
  split; [exact Hlf|]. split; [exact Htrim|exact Hline].
Defined.

Lemma first_line_is_first_instruction_witness :
  first_line_instruction ("Click A" +:+ nl +:+ "Type B") <> "" /\
  first_nonempty_line ("Click A" +:+ nl +:+ "Type B") =
    Some (first_line_instruction ("Click A" +:+ nl +:+ "Type B")).
Proof.
  assert (Hne : first_line_instruction ("Click A" +:+ nl +:+ "Type B") <> "").
  { vm_compute. discriminate. }
  split; [exact Hne|].
  exact (first_line_is_first_instruction _ Hne).
Defined.

Lemma extractUsage_skips_witness :
  usage_of malformed_usage = None /\
  extractUsageFromMessages [snake_usage; malformed_usage; camel_usage] =
  extractUsageFromMessages [snake_usage; camel_usage].
Proof.
  assert (Hu : usage_of malformed_usage = None) by (vm_compute; reflexivity).
  split; [exact Hu|].
  exact (extractUsage_skips [snake_usage] [camel_usage] malformed_usage Hu).
Defined.

Lemma extractUsage_string_counter_is_appended_witness :
  forallb well_typed [snake_usage] = true /\
  usage_of text_counter_usage =
    Some (Obj [("prompt_tokens", Str "7"); ("total_tokens", Num 7)]) /\
  get_opt (extractUsageFromMessages [snake_usage; text_counter_usage])
    "prompt_tokens" = Str "107".
Proof.
  assert (Hw : forallb well_typed [snake_usage] = true) by (vm_compute; reflexivity).
  assert (Hu : usage_of text_counter_usage =
                 Some (Obj [("prompt_tokens", Str "7"); ("total_tokens", Num 7)]))
    by (vm_compute; reflexivity).
  split; [exact Hw|]. split; [exact Hu|].
  assert (Hne : "7" <> "") by discriminate.
  change [snake_usage; text_counter_usage]
    with ([snake_usage] ++ [text_counter_usage]).
  rewrite (extractUsage_string_counter_is_appended [snake_usage]
             text_counter_usage _ "7" Hw Hu eq_refl Hne).
  vm_compute. reflexivity.
Defined.

Lemma fieldsToZodSchema_last_wins_witness :
  Forall (fun f => fieldName f <> "__proto__") twice_title /\
  exists shape : list (string * ZodType),
    fieldsToZodSchema twice_title = ZObject shape Strip /\
    NoDup (map fst shape) /\
    assoc "title" shape = Some (ZOptional ZNumber) /\
    assoc "author" shape = None.
Proof.
  assert (Hnames : Forall (fun f => fieldName f <> "__proto__") twice_title).
  { repeat constructor; discriminate. }
  split; [exact Hnames|].
  destruct (fieldsToZodSchema_last_wins twice_title Hnames)
    as (shape & Hs & Hnd & Hk).
  exists shape. split; [exact Hs|]. split; [exact Hnd|]. split.
  - rewrite (Hk "title"). vm_compute. reflexivity.
  - rewrite (Hk "author"). vm_compute. reflexivity.
Defined.

Lemma fieldsToZodSchema_order_independent_witness :
  Forall (fun f => fieldName f <> "__proto__") three_fields /\
  NoDup (map fieldName three_fields) /\
  three_fields ≡ₚ reverse three_fields /\
  exists shape shape' : list (string * ZodType),
    fieldsToZodSchema three_fields = ZObject shape Strip /\
    fieldsToZodSchema (reverse three_fields) = ZObject shape' Strip /\
    shape = [("title", ZString); ("tags", ZOptional (ZArray ZAny));
             ("published", ZAny)] /\
    shape' = [("published", ZAny); ("tags", ZOptional (ZArray ZAny));
              ("title", ZString)] /\
    shape ≡ₚ shape' /\
    forall k, assoc k shape = assoc k shape'.
Proof.
  assert (Hnd : NoDup (map fieldName three_fields)).
  { apply (bool_decide_unpack _). vm_compute. exact I. }
  assert (Hp : three_fields ≡ₚ reverse three_fields).
  { symmetry. apply reverse_Permutation. }
  assert (Hnames : Forall (fun f => fieldName f <> "__proto__") three_fields).
  { repeat constructor; discriminate. }
  split; [exact Hnames|]. split; [exact Hnd|]. split; [exact Hp|].
  destruct (fieldsToZodSchema_order_independent _ _ Hnames Hnd Hp)
    as (shape & shape' & Hs & Hs' & Hperm & Hk).
  exists shape, shape'. split; [exact Hs|]. split; [exact Hs'|].
  split; [vm_compute in Hs; by injection Hs as <-|].
  split; [vm_compute in Hs'; by injection Hs' as <-|].
  split; [exact Hperm|exact Hk].
Defined.

Lemma item_record_lists_lines_before_close_witness :
  results (fst (@process_item builtins workflow libs reporting chat_model 0
                  (item "observe" "List the links" "" true) initial)) =
    results initial ++ [observed_record] /\
  exists before ok,
    trace (fst (@process_item builtins workflow libs reporting chat_model 0
                  (item "observe" "List the links" "" true) initial)) =
      trace initial ++ before ++
        [mkEvent (session_of 0 (item "observe" "List the links" "" true)) Close ok] /\
    get_opt (json observed_record) "messages" =
      Arr (sanitizeMessages (@lines_of reporting (trace initial) before)).
Proof.
  assert (Hres : results (fst (@process_item builtins workflow libs reporting chat_model 0
                    (item "observe" "List the links" "" true) initial)) =
                 results initial ++ [observed_record]) by (vm_compute; reflexivity).
  split; [exact Hres|].
  exact (@item_record_lists_lines_before_close builtins workflow libs reporting chat_model 0
           (item "observe" "List the links" "" true) initial observed_record Hres).
Defined.

Lemma unsupported_operation_is_an_error_record_witness :
  (operation (item "click" "Click A" "" false)
     ∉ ["act"; "extract"; "observe"; "agent"]) /\
  @try_catch unit
    (@dispatch builtins libs never_fails
       (session_of 0 (item "click" "Click A" "" false))
       (item "click" "Click A" "" false))
    (on_error (item "click" "Click A" "" false)) initial =
    (extend initial [] []
       [mkRecord
          (Some (mkError "NodeOperationError"
                   "Error executing Stagehand operation: Unsupported operation: click"))
          (Obj [("operation", Str "click")])],
     inr tt).
Proof.
  assert (Hop : operation (item "click" "Click A" "" false)
                  ∉ ["act"; "extract"; "observe"; "agent"]).
  { apply (bool_decide_unpack _). vm_compute. exact I. }
  split; [exact Hop|].
  destruct (@unsupported_operation_is_an_error_record builtins workflow libs
              never_fails (session_of 0 (item "click" "Click A" "" false))
              (item "click" "Click A" "" false) initial Hop)
    as (_ & Htc & _).
  rewrite Htc. vm_compute. reflexivity.
Defined.

(** The text of the error is the host's: a tag that spells one of its
    error codes is replaced by the description of that code. *)
Example unsupported_operation_named_as_an_error_code :
  error <$> results (fst (@run builtins workflow libs never_fails chat_model
                            [item "enoent" "Click A" "" false])) =
    [Some (mkError "NodeOperationError" "The file or directory does not exist")].
Proof. by vm_compute. Qed.

Lemma unresolved_schema_makes_no_call_witness :
  operation (extract_item "example" "{oops") = "extract" /\
  exists e,
    resolve_schema (extract_item "example" "{oops") = inl e /\
    err_name e = "SyntaxError" /\
    @dispatch builtins libs never_fails
      (session_of 0 (extract_item "example" "{oops"))
      (extract_item "example" "{oops") initial = (initial, inl e) /\
    @try_catch unit
      (@dispatch builtins libs never_fails
         (session_of 0 (extract_item "example" "{oops"))
         (extract_item "example" "{oops"))
      (on_error (extract_item "example" "{oops")) initial =
      (extend initial [] []
         [error_record (extract_item "example" "{oops") e []],
       inr tt).
Proof.
  split; [reflexivity|].
  destruct (resolve_schema (extract_item "example" "{oops")) as [e|t] eqn:Hres;
    [|exfalso; vm_compute in Hres; discriminate Hres].
  exists e. split; [reflexivity|].
  destruct (@unresolved_schema_makes_no_call builtins workflow libs never_fails
              (session_of 0 (extract_item "example" "{oops"))
              (extract_item "example" "{oops") initial e eq_refl Hres)
    as (Hd & Htc & _).
  split; [|split; [exact Hd|exact Htc]].
  vm_compute in Hres. by injection Hres as <-.
Defined.

Lemma unsupported_schema_source_is_an_error_record_witness :
  operation (extract_item "csv" "{}") = "extract" /\
  (schemaSource (extract_item "csv" "{}")
     ∉ ["fieldList"; "example"; "jsonSchema"; "manual"]) /\
  resolve_schema (extract_item "csv" "{}") =
    inl (mkError "ApplicationError" "Unsupported schema source: csv") /\
  error <$> results (fst (@try_catch unit
      (@dispatch builtins libs never_fails
         (session_of 0 (extract_item "csv" "{}")) (extract_item "csv" "{}"))
      (on_error (extract_item "csv" "{}")) initial)) =
    [Some (mkError "NodeOperationError"
             "Error executing Stagehand operation: Unsupported schema source: csv")].
Proof.
  assert (Hsrc : schemaSource (extract_item "csv" "{}")
                   ∉ ["fieldList"; "example"; "jsonSchema"; "manual"]).
  { apply (bool_decide_unpack _). vm_compute. exact I. }
  split; [reflexivity|]. split; [exact Hsrc|].
  destruct (@unsupported_schema_source_is_an_error_record builtins workflow libs
              never_fails (session_of 0 (extract_item "csv" "{}"))
              (extract_item "csv" "{}") initial eq_refl Hsrc)
    as (Hres & Htc & _).
  split; [exact Hres|]. rewrite Htc. vm_compute. reflexivity.
Defined.

Lemma act_without_instructions_witness :
  operation (item "act" blank_block "" false) = "act" /\
  Forall (fun line => trim line = "") (split LF blank_block) /\
  exists lines recs r,
    @dispatch builtins libs never_fails
      (session_of 0 (item "act" blank_block "" false))
      (item "act" blank_block "" false) initial =
      (extend initial
         [mkEvent (session_of 0 (item "act" blank_block "" false)) Url true]
         lines recs, r).
Proof.
  assert (Hblank : Forall (fun line => trim line = "") (split LF blank_block)).
  { assert (split LF blank_block = ["  "; ""; " "]) as -> by (vm_compute; reflexivity).
    repeat constructor. }
  split; [reflexivity|]. split; [exact Hblank|].
  destruct (@act_without_instructions builtins libs never_fails
              (session_of 0 (item "act" blank_block "" false))
              (item "act" blank_block "" false) initial eq_refl Hblank)
    as (lines & recs & r & Hd & _).
  exists lines, recs, r. exact Hd.
Defined.

Lemma agent_calls_in_order_witness :
  operation (item "agent" "Find the price" "" true) = "agent" /\
  exists before final lines recs,
    @dispatch builtins libs talkative
      (session_of 0 (item "agent" "Find the price" "" true))
      (item "agent" "Find the price" "" true) initial =
      (extend initial (before ++ [final]) lines recs, inr tt) /\
    call <$> before ++ [final] =
      [Agent; AgentExecute "Find the price" 10 None; Url] /\
    Forall (fun ev => returned ev = true) before /\
    length recs = 1%nat.
Proof.
  split; [reflexivity|].
  destruct (@agent_calls_in_order builtins libs talkative
              (session_of 0 (item "agent" "Find the price" "" true))
              (item "agent" "Find the price" "" true) initial eq_refl)
    as (before & final & lines & recs & r & Hd & Hcalls & Hbefore & Hthrew
        & Hreturned & Hlen).
  destruct r as [e|[]].
  { exfalso. vm_compute in Hd. discriminate Hd. }
  exists before, final, lines, recs. split; [exact Hd|].
  rewrite (Hlen eq_refl) in Hcalls. split; [exact Hcalls|].
  split; [exact Hbefore|].
  destruct (returned final) eqn:Hfinal.
  - destruct (Hreturned eq_refl) as [(_ & _ & rec & ->)|(_ & _ & res & e & _ & _ & Hr)];
      [reflexivity|discriminate Hr].
  - destruct (Hthrew eq_refl) as (_ & e & Hr & _). discriminate Hr.
Defined.

Lemma agent_record_reports_the_result_witness :
  operation (item "agent" "Find the price" "" true) = "agent" /\
  snd (@dispatch builtins libs talkative
         (session_of 0 (item "agent" "Find the price" "" true))
         (item "agent" "Find the price" "" true) initial) = inr tt /\
  exists rec,
    results (fst (@dispatch builtins libs talkative
                    (session_of 0 (item "agent" "Find the price" "" true))
                    (item "agent" "Find the price" "" true) initial)) = [rec] /\
    get_opt (json rec) "actionCount" = Num 1 /\
    get_opt (json rec) "usage" =
      Obj [("prompt_tokens", Num 30); ("completion_tokens", Num 12);
           ("total_tokens", Num 42)].
Proof.
  split; [reflexivity|]. split; [vm_compute; reflexivity|].
  assert (Hd : @dispatch builtins libs talkative
                 (session_of 0 (item "agent" "Find the price" "" true))
                 (item "agent" "Find the price" "" true) initial =
               (fst (@dispatch builtins libs talkative
                       (session_of 0 (item "agent" "Find the price" "" true))
                       (item "agent" "Find the price" "" true) initial), inr tt))
    by (vm_compute; reflexivity).
  destruct (@agent_record_reports_the_result builtins libs talkative
              (session_of 0 (item "agent" "Find the price" "" true))
              (item "agent" "Find the price" "" true) initial _ eq_refl Hd)
    as (agentResult & actions & url & rec & Hexec & _ & Hactions & Hst & _ & _ & _ & _
        & _ & Hcount & Husage & _).
  exists rec. split; [by rewrite Hst|].
  assert (Hres : agentResult = answer (AgentExecute "Find the price" 10 None)).
  { vm_compute in Hexec. by injection Hexec as <-. }
  subst agentResult. vm_compute in Hactions. injection Hactions as <-.
  split; [exact Hcount|]. rewrite Husage. vm_compute. reflexivity.
Defined.

Lemma extract_observe_record_is_the_answer_witness :
  operation (item "observe" "List the links" "" false) = "observe" /\
  exists rec,
    @try_catch unit
      (@dispatch builtins libs never_fails
         (session_of 0 (item "observe" "List the links" "" false))
         (item "observe" "List the links" "" false))
      (on_error (item "observe" "List the links" "" false)) initial =
      (@grow never_fails initial
         [mkEvent (session_of 0 (item "observe" "List the links" "" false))
            (Observe "List the links") true] [rec], inr tt) /\
    error rec = None /\ get_opt (json rec) "result" = Arr [].
Proof.
  split; [reflexivity|].
  destruct (@extract_observe_record_is_the_answer builtins workflow libs never_fails
              (session_of 0 (item "observe" "List the links" "" false))
              (item "observe" "List the links" "" false) initial
              (Observe "List the links") (or_introl (conj eq_refl eq_refl)))
    as (rec & Htc & Hrec).
  exists rec. split; [exact Htc|exact Hrec].
Defined.

Lemma run_requires_a_chat_model_witness :
  ("chat_models" ∉ lc_namespace completion_model) /\
  @run builtins workflow libs never_fails completion_model three_acts =
    (initial, inl (mkError "Error" "A Chat Model is required")).
Proof.
  assert (Hns : "chat_models" ∉ lc_namespace completion_model).
  { apply (bool_decide_unpack _). vm_compute. exact I. }
  split; [exact Hns|].
  exact (@run_requires_a_chat_model builtins workflow libs never_fails completion_model
           three_acts Hns).
Defined.

Lemma deepseek_override_yields_to_google_witness :
  model_name (deepseek_on "google_genai") = "" +:+ "deepseek" +:+ "-chat" /\
  modelName (options_of (deepseek_on "google_genai") (item "act" "Click A" "" false))
    = "google/deepseek-chat" /\
  modelName (options_of (deepseek_on "openai") (item "act" "Click A" "" false))
    = "deepseek/deepseek-chat".
Proof.
  split; [reflexivity|]. split.
  - rewrite (deepseek_override_yields_to_google (deepseek_on "google_genai")
               (item "act" "Click A" "" false) "" "-chat" eq_refl).
    vm_compute. reflexivity.
  - rewrite (deepseek_override_yields_to_google (deepseek_on "openai")
               (item "act" "Click A" "" false) "" "-chat" eq_refl).
    vm_compute. reflexivity.
Defined.

End OnCases.
